(** * FlipperSkylanders: the tag-dump converter and the profile enricher

    A shallow embedding of [convert_nfc_to_json.py] and
    [enrich_character_data.py], with the properties of their specification.

    Text is modelled by Stdlib's [string]; a character is a code point below
    256, so the character classes and the case mapping below are Python's
    [str] ones restricted to that range. *)

From Stdlib Require Import Ascii String NArith ZArith QArith_base Lia Bool List.
From stdpp Require Import base option list strings gmap.

Local Open Scope char_scope.
Local Open Scope string_scope.
Local Open Scope list_scope.

(** ** Characters *)

Module Chr.

Definition code (c : ascii) : N := N_of_ascii c.

Definition between (lo hi : N) (c : ascii) : bool :=
  ((lo <=? code c) && (code c <=? hi))%N.

(** [\d]: the decimal digits. *)
Definition is_digit (c : ascii) : bool := between 48 57 c.

(** [\s] and [str.isspace]: tab to carriage return, the four separators
    FS GS RS US, the space, NEL and the no-break space. *)
Definition is_space (c : ascii) : bool :=
  between 9 13 c || between 28 32 c || (code c =? 133)%N || (code c =? 160)%N.

Definition is_ascii_upper (c : ascii) : bool := between 65 90 c.
Definition is_ascii_lower (c : ascii) : bool := between 97 122 c.

(** Letters with a lower case 32 code points above them. *)
Definition has_lower (c : ascii) : bool :=
  is_ascii_upper c || between 192 214 c || between 216 222 c.

(** Letters with an upper case 32 code points below them. *)
Definition has_upper (c : ascii) : bool :=
  is_ascii_lower c || between 224 246 c || between 248 254 c.

(** [\w]: letters, digits and other numerics, and the underscore. *)
Definition is_word (c : ascii) : bool :=
  is_digit c || is_ascii_upper c || is_ascii_lower c || (code c =? 95)%N
  || (code c =? 170)%N || (code c =? 178)%N || (code c =? 179)%N
  || (code c =? 181)%N || (code c =? 185)%N || (code c =? 186)%N
  || between 188 190 c || between 192 214 c || between 216 246 c
  || between 248 255 c.

Definition lower (c : ascii) : ascii :=
  if has_lower c then ascii_of_N (code c + 32) else c.

(** [str.upper] on one character.  The three characters of the range
    whose upper case lies outside it (the micro sign, the sharp s and
    the y with diaeresis) are left alone; the program upper-cases hex
    digits only. *)
Definition upper (c : ascii) : ascii :=
  if has_upper c then ascii_of_N (code c - 32) else c.

(** Membership in the literal ['0123456789ABCDEFabcdef']. *)
Definition is_hex (c : ascii) : bool :=
  is_digit c || between 65 70 c || between 97 102 c.

(** The class [[0-9A-F]] of the output format. *)
Definition is_upper_hex (c : ascii) : bool :=
  is_digit c || between 65 70 c.

Definition newline : ascii := "010".

End Chr.

(** ** Strings *)

Module Str.

Fixpoint all (p : ascii -> bool) (s : string) : bool :=
  match s with
  | EmptyString => true
  | String a s' => p a && all p s'
  end.

Fixpoint filter (p : ascii -> bool) (s : string) : string :=
  match s with
  | EmptyString => EmptyString
  | String a s' => if p a then String a (filter p s') else filter p s'
  end.

Fixpoint map (f : ascii -> ascii) (s : string) : string :=
  match s with
  | EmptyString => EmptyString
  | String a s' => String (f a) (map f s')
  end.

Fixpoint take (n : nat) (s : string) : string :=
  match n, s with
  | S n', String a s' => String a (take n' s')
  | _, _ => EmptyString
  end.

Fixpoint drop (n : nat) (s : string) : string :=
  match n, s with
  | S n', String _ s' => drop n' s'
  | _, _ => s
  end.

Fixpoint cat (s t : string) : string :=
  match s with
  | EmptyString => t
  | String a s' => String a (cat s' t)
  end.

(** [s * n] *)
Fixpoint times (s : string) (n : nat) : string :=
  match n with
  | O => EmptyString
  | S n' => cat s (times s n')
  end.

Definition upper (s : string) : string := map Chr.upper s.
Definition lower (s : string) : string := map Chr.lower s.

Fixpoint lstrip (s : string) : string :=
  match s with
  | String a s' => if Chr.is_space a then lstrip s' else s
  | EmptyString => EmptyString
  end.

(** Drops the trailing white space: a character is kept when something
    that is kept follows it, or when it is no white space. *)
Fixpoint rstrip (s : string) : string :=
  match s with
  | EmptyString => EmptyString
  | String a s' =>
      match rstrip s' with
      | EmptyString => if Chr.is_space a then EmptyString else String a EmptyString
      | t => String a t
      end
  end.

(** [s.strip()] *)
Definition strip (s : string) : string := rstrip (lstrip s).

Fixpoint starts_with (p s : string) : bool :=
  match p, s with
  | EmptyString, _ => true
  | String a p', String b s' => Ascii.eqb a b && starts_with p' s'
  | String _ _, EmptyString => false
  end.

(** [old in s] *)
Fixpoint contains (old s : string) : bool :=
  starts_with old s ||
  match s with
  | EmptyString => false
  | String _ s' => contains old s'
  end.

(** The scan of [s.replace(old, new)] for a non-empty [old]: [skip]
    counts the characters of an occurrence still to be passed over. *)
Fixpoint replace_scan (old new : string) (skip : nat) (s : string) : string :=
  match s with
  | EmptyString => EmptyString
  | String a s' =>
      match skip with
      | S n => replace_scan old new n s'
      | O =>
          if starts_with old s
          then cat new (replace_scan old new (String.length old - 1) s')
          else String a (replace_scan old new 0 s')
      end
  end.

(** [s.replace(old, new)]; an empty [old] puts [new] before every
    character and at the end. *)
Fixpoint intersperse (new s : string) : string :=
  match s with
  | EmptyString => new
  | String a s' => cat new (String a (intersperse new s'))
  end.

Definition replace (old new s : string) : string :=
  match old with
  | EmptyString => intersperse new s
  | _ => replace_scan old new 0 s
  end.

(** [int(s)] for a string of decimal digits. *)
Definition digit_value (c : ascii) : N := (Chr.code c - 48)%N.

Fixpoint int_acc (acc : N) (s : string) : N :=
  match s with
  | EmptyString => acc
  | String a s' => int_acc (acc * 10 + digit_value a)%N s'
  end.

Definition int (s : string) : N := int_acc 0 s.

End Str.

(** ** Regular expressions

    The part of Python's [re] the two programs use: literals and character
    sets, sequences, alternation, repeats of one character (greedy or lazy,
    unbounded), counted repeats of a sub-pattern, capturing groups and [$],
    under the flags [IGNORECASE] and [MULTILINE].  The matcher is the
    backtracking one: the first alternative that lets the rest of the
    pattern succeed wins. *)

Module Re.

Inductive category := CatSpace | CatDigit | CatWord.

Inductive item :=
| Lit (c : ascii)
| Range (lo hi : ascii)
| Cat (k : category).

(** A set of characters, possibly negated; a literal is a set of one. *)
Record atom := Atom { negated : bool; items : list item }.

Inductive regex :=
| Empty
| One (a : atom)
| Seq (r1 r2 : regex)
| Alt (r1 r2 : regex)
| Repeat (greedy : bool) (min : nat) (a : atom)
| Times (n : nat) (r : regex)
| Group (n : nat) (r : regex)
| AtEnd.

Record flags := Flags { ignorecase : bool; multiline : bool }.

Definition no_flags : flags := Flags false false.

Definition in_category (k : category) (c : ascii) : bool :=
  match k with
  | CatSpace => Chr.is_space c
  | CatDigit => Chr.is_digit c
  | CatWord => Chr.is_word c
  end.

(** The code points from [lo], [n] of them. *)
Fixpoint codes_from (lo : N) (n : nat) : list N :=
  match n with
  | O => []
  | S n' => lo :: codes_from (N.succ lo) n'
  end.

Definition codes_of_range (lo hi : ascii) : list N :=
  codes_from (Chr.code lo) (N.to_nat (N.succ (Chr.code hi) - Chr.code lo)).

(** Under [IGNORECASE] the members of a set are lower-cased when the
    pattern is compiled and the subject character when it is matched. *)
Definition item_matches (fl : flags) (it : item) (c : ascii) : bool :=
  if ignorecase fl then
    let c' := Chr.lower c in
    match it with
    | Lit x => Ascii.eqb (Chr.lower x) c'
    | Range lo hi =>
        existsb (fun i => Ascii.eqb (Chr.lower (ascii_of_N i)) c')
                (codes_of_range lo hi)
    | Cat k => in_category k c'
    end
  else
    match it with
    | Lit x => Ascii.eqb x c
    | Range lo hi => Chr.between (Chr.code lo) (Chr.code hi) c
    | Cat k => in_category k c
    end.

Definition atom_matches (fl : flags) (a : atom) (c : ascii) : bool :=
  xorb (negated a) (existsb (fun it => item_matches fl it c) (items a)).

(** [$]: at the end of the text, or before its last newline; with
    [MULTILINE] before any newline. *)
Definition at_end (fl : flags) (s : string) : bool :=
  match s with
  | EmptyString => true
  | String a s' =>
      Ascii.eqb a Chr.newline &&
      (multiline fl || match s' with EmptyString => true | _ => false end)
  end.

(** Captures: the most recent text of a group comes first. *)
Definition caps := list (nat * string).

Fixpoint group_of (n : nat) (c : caps) : option string :=
  match c with
  | [] => None
  | (m, w) :: c' => if Nat.eqb m n then Some w else group_of n c'
  end.

(** What was read between the suffix [s] and its suffix [s']. *)
Definition consumed (s s' : string) : string :=
  Str.take (String.length s - String.length s') s.

Definition result := (string * caps)%type.
Definition cont := string -> caps -> option result.

(** Greedy repeat of one character: as many as possible first. *)
Fixpoint repeat_greedy (p : ascii -> bool) (min : nat) (k : cont)
    (s : string) (c : caps) {struct s} : option result :=
  let stop := match min with O => k s c | S _ => None end in
  match s with
  | String a s' =>
      if p a then
        match repeat_greedy p (Nat.pred min) k s' c with
        | Some x => Some x
        | None => stop
        end
      else stop
  | EmptyString => stop
  end.

(** Lazy repeat of one character: as few as possible first. *)
Fixpoint repeat_lazy (p : ascii -> bool) (min : nat) (k : cont)
    (s : string) (c : caps) {struct s} : option result :=
  let more :=
    match s with
    | String a s' => if p a then repeat_lazy p (Nat.pred min) k s' c else None
    | EmptyString => None
    end in
  match min with
  | O => match k s c with Some x => Some x | None => more end
  | S _ => more
  end.

Fixpoint rmatch (fl : flags) (r : regex) (k : cont) (s : string) (c : caps)
    {struct r} : option result :=
  match r with
  | Empty => k s c
  | One a =>
      match s with
      | String x s' => if atom_matches fl a x then k s' c else None
      | EmptyString => None
      end
  | Seq r1 r2 => rmatch fl r1 (rmatch fl r2 k) s c
  | Alt r1 r2 =>
      match rmatch fl r1 k s c with
      | Some x => Some x
      | None => rmatch fl r2 k s c
      end
  | Repeat true min a => repeat_greedy (atom_matches fl a) min k s c
  | Repeat false min a => repeat_lazy (atom_matches fl a) min k s c
  | Times n r1 =>
      (fix go (n : nat) (k : cont) : cont :=
         match n with
         | O => k
         | S n' => rmatch fl r1 (go n' k)
         end) n k s c
  | Group n r1 =>
      rmatch fl r1 (fun s' c' => k s' ((n, consumed s s') :: c')) s c
  | AtEnd => if at_end fl s then k s c else None
  end.

(** A match object: the text from where the match starts, the text
    left after it, and the groups. *)
Record rmatch_obj := Match { m_from : string; m_rest : string; m_caps : caps }.

(** [m.group(n)]; group 0 is the whole match. *)
Definition group (m : rmatch_obj) (n : nat) : option string :=
  match n with
  | O => Some (consumed (m_from m) (m_rest m))
  | S _ => group_of n (m_caps m)
  end.

(** [pattern.match] at the start of [s]. *)
Definition match_here (fl : flags) (r : regex) (s : string) : option rmatch_obj :=
  match rmatch fl r (fun s' c' => Some (s', c')) s [] with
  | Some (s', c') => Some (Match s s' c')
  | None => None
  end.

(** [re.search]: the leftmost position where the pattern matches. *)
Fixpoint search (fl : flags) (r : regex) (s : string) : option rmatch_obj :=
  match match_here fl r s with
  | Some m => Some m
  | None =>
      match s with
      | String _ s' => search fl r s'
      | EmptyString => None
      end
  end.

(** [re.finditer]: the matches from left to right, none overlapping; [skip]
    counts the characters of the last match still to be passed over. *)
Fixpoint finditer_scan (fl : flags) (r : regex) (skip : nat) (s : string)
    : list rmatch_obj :=
  match skip with
  | S n =>
      match s with
      | String _ s' => finditer_scan fl r n s'
      | EmptyString => []
      end
  | O =>
      match match_here fl r s with
      | Some m =>
          m :: match s with
               | String _ s' =>
                   finditer_scan fl r
                     (String.length (consumed s (m_rest m)) - 1) s'
               | EmptyString => []
               end
      | None =>
          match s with
          | String _ s' => finditer_scan fl r 0 s'
          | EmptyString => []
          end
      end
  end.

Definition finditer (fl : flags) (r : regex) (s : string) : list rmatch_obj :=
  finditer_scan fl r 0 s.

(** [re.sub(r, repl, s)] for a replacement without group references. *)
Fixpoint sub_scan (fl : flags) (r : regex) (repl : string) (skip : nat)
    (s : string) : string :=
  match skip with
  | S n =>
      match s with
      | String _ s' => sub_scan fl r repl n s'
      | EmptyString => EmptyString
      end
  | O =>
      match match_here fl r s with
      | Some m =>
          Str.cat repl
            match s with
            | String a s' =>
                match String.length (consumed s (m_rest m)) with
                | O => String a (sub_scan fl r repl 0 s')
                | S n => sub_scan fl r repl n s'
                end
            | EmptyString => EmptyString
            end
      | None =>
          match s with
          | String a s' => String a (sub_scan fl r repl 0 s')
          | EmptyString => EmptyString
          end
      end
  end.

Definition sub (fl : flags) (r : regex) (repl s : string) : string :=
  sub_scan fl r repl 0 s.

(** Pattern builders. *)
Definition lit (c : ascii) : regex := One (Atom false [Lit c]).

Fixpoint lits (s : string) : regex :=
  match s with
  | EmptyString => Empty
  | String a s' => Seq (lit a) (lits s')
  end.

Definition space : atom := Atom false [Cat CatSpace].
Definition digit : atom := Atom false [Cat CatDigit].
Definition word : atom := Atom false [Cat CatWord].

(** [[0-9A-F]] and [[0-9A-F\s]] *)
Definition hex : atom := Atom false [Range "0" "9"; Range "A" "F"].
Definition hex_or_space : atom :=
  Atom false [Range "0" "9"; Range "A" "F"; Cat CatSpace].
(** [[^0-9A-F]] *)
Definition not_hex : atom := Atom true [Range "0" "9"; Range "A" "F"].

Definition star (a : atom) : regex := Repeat true 0 a.
Definition plus (a : atom) : regex := Repeat true 1 a.
Definition plus_lazy (a : atom) : regex := Repeat false 1 a.

Fixpoint sequence (rs : list regex) : regex :=
  match rs with
  | [] => Empty
  | [r] => r
  | r :: rs' => Seq r (sequence rs')
  end.

End Re.

(** ** The tag-file parser ([convert_nfc_to_json.py]) *)

Import Re.

(** The lines the parser prints. *)
Inductive diagnostic :=
| WarnTruncated (block_num : N) (len : nat)
| WarnInvalidLength (block_num : N) (len : nat).

(** The dictionary [data]; [None] is Python's [None]. *)
Record TagRecord := mkTagRecord {
  uid : option string;
  atqa : option string;
  sak : option string;
  mifare_type : option string;
  blocks : list string
}.

Definition icase_multiline : flags := Flags true true.

(** [r'UID:\s*([0-9A-F\s]+?)(?:\n|$)'] *)
Definition uid_pattern : regex :=
  sequence [lits "UID:"; star space; Group 1 (plus_lazy hex_or_space);
       Alt (lit Chr.newline) AtEnd].

(** [r'ATQA:\s*([0-9A-F\s]+)'] *)
Definition atqa_pattern : regex :=
  sequence [lits "ATQA:"; star space; Group 1 (plus hex_or_space)].

(** [r'SAK:\s*([0-9A-F\s]+)'] *)
Definition sak_pattern : regex :=
  sequence [lits "SAK:"; star space; Group 1 (plus hex_or_space)].

(** [r'Mifare Classic type:\s*(\w+)'] *)
Definition mifare_pattern : regex :=
  sequence [lits "Mifare Classic type:"; star space; Group 1 (plus word)].

(** The block pattern: [Block], [\s+], the group [(\d+)], a colon, [\s*]
    and the second group, sixteen times two of [[0-9A-F]] and [\s*]. *)
Definition block_body : regex := Times 16 (Seq (Times 2 (One hex)) (star space)).

Definition block_pattern : regex :=
  sequence [lits "Block"; plus space; Group 1 (plus digit); lit ":"%char; star space;
       Group 2 block_body].

(** [m.group(n)] of a group that took part in the match. *)
Definition group_text (m : rmatch_obj) (n : nat) : string :=
  default "" (group m n).

Definition uid_match (content : string) : option rmatch_obj :=
  search icase_multiline uid_pattern content.

(** [re.sub(r'[^0-9A-F]', '', uid_str, flags=re.IGNORECASE).upper()] *)
Definition clean_uid (uid_str : string) : string :=
  Str.upper (sub (Flags true false) (One not_hex) "" uid_str).

(** [''.join(c for c in s if c in '0123456789ABCDEFabcdef').upper()] *)
Definition keep_hex (s : string) : string :=
  Str.upper (Str.filter Chr.is_hex s).

Definition extract_uid (content : string) : option string :=
  match uid_match content with
  | Some m => Some (clean_uid (Str.strip (group_text m 1)))
  | None => None
  end.

Definition extract_atqa (content : string) : option string :=
  match search no_flags atqa_pattern content with
  | Some m => Some (keep_hex (Str.strip (group_text m 1)))
  | None => None
  end.

Definition extract_sak (content : string) : option string :=
  match search no_flags sak_pattern content with
  | Some m => Some (keep_hex (Str.strip (group_text m 1)))
  | None => None
  end.

Definition extract_mifare_type (content : string) : option string :=
  match search no_flags mifare_pattern content with
  | Some m => Some (group_text m 1)
  | None => None
  end.

(** [re.sub(r'\s+', '', match.group(2)).upper()] *)
Definition clean_block (g : string) : string :=
  Str.upper (sub no_flags (plus space) "" g).

(** One turn of the loop over the block matches: the dictionary [blocks]
    and the lines printed so far. *)
Definition block_step (st : gmap N string * list diagnostic) (m : rmatch_obj)
    : gmap N string * list diagnostic :=
  let block_num := Str.int (group_text m 1) in
  let block_data := clean_block (group_text m 2) in
  let len := String.length block_data in
  if Nat.eqb len 32 then (<[block_num := block_data]> st.1, st.2)
  else if Nat.ltb 32 len then
    (<[block_num := Str.take 32 block_data]> st.1,
     (st.2 ++ [WarnTruncated block_num len])%list)
  else (st.1, (st.2 ++ [WarnInvalidLength block_num len])%list).

Definition block_matches (content : string) : list rmatch_obj :=
  finditer icase_multiline block_pattern content.

Definition scan_blocks (content : string) : gmap N string * list diagnostic :=
  fold_left block_step (block_matches content) (∅, []).

(** ['00' * 16] *)
Definition empty_block : string := Str.times "00" 16.

(** The loop [for i in range(64)]. *)
Definition assemble_blocks (found : gmap N string) : list string :=
  List.map (fun i => default empty_block (found !! N.of_nat i)) (seq 0 64).

(** [parse_flipper_nfc_file], from the text of the file: the record and
    what was printed. *)
Definition parse_flipper_nfc_file (content : string)
    : TagRecord * list diagnostic :=
  let found := scan_blocks content in
  (mkTagRecord (extract_uid content) (extract_atqa content)
     (extract_sak content) (extract_mifare_type content)
     (assemble_blocks found.1),
   found.2).

(** ** The tree converter *)

(** A path is the sequence of its components. *)
Abbreviation path := (list string).

Fixpoint join (sep : string) (l : list string) : string :=
  match l with
  | [] => ""
  | [x] => x
  | x :: l' => Str.cat x (Str.cat sep (join sep l'))
  end.

Definition backslash : string := String "092" "".

(** [str(p)] *)
Definition path_str (p : path) : string := join "/" p.

Fixpoint is_prefix (base p : path) : bool :=
  match base, p with
  | [], _ => true
  | b :: base', x :: p' => String.eqb b x && is_prefix base' p'
  | _ :: _, [] => false
  end.

(** [p.relative_to(base)]; [None] stands for the [ValueError]. *)
Definition relative_to (p base : path) : option path :=
  if is_prefix base p then Some (skipn (length base) p) else None.

(** [name.rfind('.')] *)
Fixpoint rfind_dot (i : nat) (name : string) : option nat :=
  match name with
  | EmptyString => None
  | String a name' =>
      match rfind_dot (S i) name' with
      | Some j => Some j
      | None => if Ascii.eqb a "." then Some i else None
      end
  end.

(** [PurePath.suffix] of a file name. *)
Definition suffix (name : string) : string :=
  match rfind_dot 0 name with
  | Some i =>
      if Nat.ltb 0 i && Nat.ltb i (String.length name - 1)
      then Str.drop i name else ""
  | None => ""
  end.

(** [p.with_suffix(new)] for a well-formed [new]; [None] stands for the
    [ValueError] of a path with an empty name. *)
Definition with_suffix (p : path) (new : string) : option path :=
  match List.last p "" with
  | EmptyString => None
  | name =>
      let old := suffix name in
      Some (removelast p ++
            [Str.cat (Str.take (String.length name - String.length old) name) new])%list
  end.

(** What reading a file gives: its text, or an exception with its message. *)
Inductive read_result :=
| Text (content : string)
| ReadError (msg : string).

(** The dictionary [nfc_data['metadata']]. *)
Record Metadata := mkMetadata {
  original_filename : string;
  original_path : string;
  category : option string;
  subcategory : option string
}.

(** The document written for one tag. *)
Record TagDocument := mkTagDocument {
  doc_record : TagRecord;
  doc_metadata : Metadata
}.

(** The lines [convert_all_nfc_files] prints. *)
Inductive console :=
| Found (n : nat)
| Warning (d : diagnostic)
| Progress (converted total : nat)
| ErrorConverting (file msg : string)
| ConversionComplete
| SuccessfullyConverted (n : nat)
| ErrorCount (n : nat)
| FirstErrors
| ErrorLine (file msg : string).

(** The state of the loop over the files: the two counters of the
    function, the files under the output directory and the console. *)
Record conv_state := mkConvState {
  converted_count : nat;
  errors : list (string * string);
  written : gmap path TagDocument;
  printed : list console
}.

(** Python's truth value of [nfc_data['uid']]. *)
Definition uid_truthy (u : option string) : bool :=
  match u with
  | Some (String _ _) => true
  | _ => false
  end.

Definition empty_name_error : string := "PosixPath('.') has an empty name".
Definition not_relative_error : string := "path is not in the subpath of the source directory".

Definition record_exception (st : conv_state) (file msg : string) : conv_state :=
  mkConvState (converted_count st) (errors st ++ [(file, msg)])%list (written st)
    (printed st ++ [ErrorConverting file msg])%list.

(** The body of the loop [for nfc_file in nfc_files], for the file at
    [source_path ++ rel], when [mkdir], [open] and [json.dump] raise
    nothing; [convert_file_io] below has the writes that raise. *)
Definition convert_file (source_path output_path : path) (total : nat)
    (st : conv_state) (f : path * read_result) : conv_state :=
  let nfc_file := (source_path ++ f.1)%list in
  match f.2 with
  | ReadError msg => record_exception st (path_str nfc_file) msg
  | Text content =>
      let parsed := parse_flipper_nfc_file content in
      let nfc_data := parsed.1 in
      let out := (printed st ++ List.map Warning parsed.2)%list in
      if negb (uid_truthy (uid nfc_data)) then
        mkConvState (converted_count st)
          (errors st ++ [(path_str nfc_file, "Missing UID")])%list
          (written st) out
      else
        let st1 := mkConvState (converted_count st) (errors st) (written st) out in
        match relative_to nfc_file source_path with
        | None => record_exception st1 (path_str nfc_file) not_relative_error
        | Some rel_path =>
            match with_suffix rel_path ".json" with
            | None => record_exception st1 (path_str nfc_file) empty_name_error
            | Some rel_json =>
                let output_file := (output_path ++ rel_json)%list in
                let parts := rel_path in
                let category :=
                  if Nat.ltb 0 (length parts) then nth_error parts 0 else None in
                let subcategory :=
                  if Nat.ltb 1 (length parts) then nth_error parts 1 else None in
                let metadata :=
                  mkMetadata (List.last nfc_file "")
                    (Str.replace "\" "/" (path_str rel_path))
                    category subcategory in
                let count := S (converted_count st) in
                mkConvState count (errors st)
                  (<[output_file := mkTagDocument nfc_data metadata]> (written st))
                  (if Nat.eqb (count mod 50) 0
                   then out ++ [Progress count total] else out)%list
            end
        end
  end.

(** [convert_all_nfc_files]: [nfc_files] lists what [rglob] found, each
    path relative to [source_path], with what reading it gives; [existing]
    holds the files already under [output_path]. *)
Definition convert_loop (source_path output_path : path) (total : nat)
    (st : conv_state) (nfc_files : list (path * read_result)) : conv_state :=
  fold_left (convert_file source_path output_path total) nfc_files st.


(** ** Writes that fail

    [convert_file] above is the turn of the loop in which the file system
    takes the write.  In the turn below the outcome of the write comes
    with the file, as the outcome of reading it does. *)

(** What writing a file gives.  [WriteOk]: the file is written.
    [WriteRefused]: [mkdir] or [open] raises, and no file is touched.
    [WriteCut]: [json.dump] raises after [open(..., 'w')] has emptied the
    file, which is left cut short.  The message is that of the
    exception. *)
Inductive write_result :=
| WriteOk
| WriteRefused (msg : string)
| WriteCut (msg : string).

(** A file under the output directory: a whole document, or the
    beginning of one. *)
Inductive out_file :=
| Whole (doc : TagDocument)
| CutShort.

Record io_state := mkIoState {
  io_converted : nat;
  io_errors : list (string * string);
  io_disk : gmap path out_file;
  io_printed : list console
}.

(** The [except] branch of the loop. *)
Definition io_exception (st : io_state) (file msg : string) : io_state :=
  mkIoState (io_converted st) (io_errors st ++ [(file, msg)])%list (io_disk st)
    (io_printed st ++ [ErrorConverting file msg])%list.

(** The body of the loop [for nfc_file in nfc_files], for the file at
    [source_path ++ rel], with the outcome of its write. *)
Definition convert_file_io (source_path output_path : path) (total : nat)
    (st : io_state) (f : path * read_result * write_result) : io_state :=
  let nfc_file := (source_path ++ f.1.1)%list in
  match f.1.2 with
  | ReadError msg => io_exception st (path_str nfc_file) msg
  | Text content =>
      let parsed := parse_flipper_nfc_file content in
      let nfc_data := parsed.1 in
      let out := (io_printed st ++ List.map Warning parsed.2)%list in
      if negb (uid_truthy (uid nfc_data)) then
        mkIoState (io_converted st)
          (io_errors st ++ [(path_str nfc_file, "Missing UID")])%list
          (io_disk st) out
      else
        let st1 := mkIoState (io_converted st) (io_errors st) (io_disk st) out in
        match relative_to nfc_file source_path with
        | None => io_exception st1 (path_str nfc_file) not_relative_error
        | Some rel_path =>
            match with_suffix rel_path ".json" with
            | None => io_exception st1 (path_str nfc_file) empty_name_error
            | Some rel_json =>
                let output_file := (output_path ++ rel_json)%list in
                let parts := rel_path in
                let category :=
                  if Nat.ltb 0 (length parts) then nth_error parts 0 else None in
                let subcategory :=
                  if Nat.ltb 1 (length parts) then nth_error parts 1 else None in
                let metadata :=
                  mkMetadata (List.last nfc_file "")
                    (Str.replace "\" "/" (path_str rel_path))
                    category subcategory in
                match f.2 with
                | WriteRefused msg => io_exception st1 (path_str nfc_file) msg
                | WriteCut msg =>
                    io_exception
                      (mkIoState (io_converted st) (io_errors st)
                         (<[output_file := CutShort]> (io_disk st)) out)
                      (path_str nfc_file) msg
                | WriteOk =>
                    let count := S (io_converted st) in
                    mkIoState count (io_errors st)
                      (<[output_file := Whole (mkTagDocument nfc_data metadata)]>
                         (io_disk st))
                      (if Nat.eqb (count mod 50) 0
                       then out ++ [Progress count total] else out)%list
                end
            end
        end
  end.

Definition convert_loop_io (source_path output_path : path) (total : nat)
    (st : io_state) (nfc_files : list (path * read_result * write_result))
    : io_state :=
  fold_left (convert_file_io source_path output_path total) nfc_files st.

(** [convert_all_nfc_files], each file with the outcome of reading it and
    of writing its document. *)
Definition convert_all_nfc_files_io (source_path output_path : path)
    (existing : gmap path out_file)
    (nfc_files : list (path * read_result * write_result)) : io_state :=
  let total := length nfc_files in
  let st :=
    convert_loop_io source_path output_path total
      (mkIoState 0 [] existing [Found total]) nfc_files in
  mkIoState (io_converted st) (io_errors st) (io_disk st)
    (io_printed st ++
     [ConversionComplete; SuccessfullyConverted (io_converted st);
      ErrorCount (length (io_errors st))] ++
     match io_errors st with
     | [] => []
     | _ => FirstErrors
            :: List.map (fun e => ErrorLine e.1 e.2) (firstn 10 (io_errors st))
     end)%list.

(** The state of a run in which every write is taken. *)
Definition all_written (st : conv_state) : io_state :=
  mkIoState (converted_count st) (errors st) (Whole <$> written st) (printed st).

(** ** The enricher ([enrich_character_data.py]) *)

(** One entry of the character table. *)
Record CharacterProfile := mkProfile {
  element : string;
  biography : string;
  abilities : list string;
  character_type : string
}.

(** The table, in the order it is written in. *)
Definition CHARACTER_DATABASE : list (string * CharacterProfile) := [
  ("Spyro",
   mkProfile "Magic"
     "A brave purple dragon who protects the Skylands with his fire breath and determination. Spyro is the legendary hero of the Skylands."
     ["Fire Breath"; "Charge Attack"; "Dragon Flight"] "Core");
  ("Bash",
   mkProfile "Earth"
     "A powerful triceratops who uses his massive horns and tail to crush enemies. Bash is known for his strength and durability."
     ["Horn Charge"; "Tail Swipe"; "Earthquake"] "Core");
  ("Boomer",
   mkProfile "Tech"
     "A mechanical troll who throws explosive boomerangs. Boomer combines ancient troll magic with modern technology."
     ["Boomerang Throw"; "Explosive Attack"; "Tech Shield"] "Core");
  ("Camo",
   mkProfile "Life"
     "A plant-based creature who can blend into nature and attack from stealth. Camo uses nature's power to protect the Skylands."
     ["Stealth Attack"; "Vine Whip"; "Nature's Wrath"] "Core");
  ("Chop-Chop",
   mkProfile "Undead"
     "A skeletal warrior who wields dual swords with deadly precision. Chop-Chop is a master of close combat."
     ["Dual Sword Slash"; "Bone Shield"; "Undead Strike"] "Core");
  ("Cynder",
   mkProfile "Undead"
     "A dark dragon who was once evil but now fights for good. Cynder uses shadow and darkness as her weapons."
     ["Shadow Breath"; "Dark Flight"; "Shadow Strike"] "Core");
  ("Dino-Rang",
   mkProfile "Earth"
     "A dinosaur who throws boomerangs with incredible accuracy. Dino-Rang combines ancient power with modern combat."
     ["Boomerang Throw"; "Earth Slam"; "Precision Strike"] "Core");
  ("Double Trouble",
   mkProfile "Magic"
     "A two-headed wizard who casts powerful spells. Double Trouble's dual minds make them unpredictable in battle."
     ["Magic Blast"; "Dual Spell"; "Mystic Shield"] "Core");
  ("Drill Sergeant",
   mkProfile "Tech"
     "A robotic drill sergeant who commands with authority and precision. Drill Sergeant uses military tactics and technology."
     ["Drill Attack"; "Command Strike"; "Tech Blast"] "Core");
  ("Drobot",
   mkProfile "Tech"
     "A robotic dragon who combines the power of dragons with advanced technology. Drobot is a high-tech guardian."
     ["Laser Breath"; "Tech Flight"; "System Overload"] "Core");
  ("Eruptor",
   mkProfile "Fire"
     "A living volcano who spews lava and fire. Eruptor's explosive temper matches his explosive power."
     ["Lava Blast"; "Fire Eruption"; "Magma Strike"] "Core");
  ("FlameSlinger",
   mkProfile "Fire"
     "An elf archer who shoots flaming arrows with perfect accuracy. FlameSlinger is a master of fire and precision."
     ["Flaming Arrow"; "Fire Shot"; "Precision Strike"] "Core");
  ("Ghost Roaster",
   mkProfile "Undead"
     "A ghostly warrior who haunts the battlefield. Ghost Roaster can phase through attacks and strike from the shadows."
     ["Phantom Strike"; "Ghost Form"; "Soul Drain"] "Core");
  ("Gill Grunt",
   mkProfile "Water"
     "A fish soldier who fights with water cannons and harpoons. Gill Grunt is a master of aquatic combat."
     ["Water Cannon"; "Harpoon Shot"; "Aqua Blast"] "Core");
  ("Hex",
   mkProfile "Undead"
     "A skeletal sorceress who casts dark magic. Hex combines necromancy with powerful spellcasting."
     ["Dark Magic"; "Bone Shield"; "Necromancy"] "Core");
  ("Ignitor",
   mkProfile "Fire"
     "A fire knight who wields a flaming sword. Ignitor is a noble warrior who fights with honor and fire."
     ["Flaming Sword"; "Fire Charge"; "Knight's Valor"] "Core");
  ("Lightning Rod",
   mkProfile "Air"
     "A lightning-powered warrior who controls storms. Lightning Rod harnesses the power of thunder and lightning."
     ["Lightning Strike"; "Thunder Blast"; "Storm Control"] "Core");
  ("Prism Break",
   mkProfile "Earth"
     "A crystal warrior who uses light and earth. Prism Break refracts light through crystals to create powerful attacks."
     ["Crystal Blast"; "Light Refraction"; "Earth Crystal"] "Core");
  ("Slam Bam",
   mkProfile "Water"
     "A yeti who fights with ice and water. Slam Bam combines brute strength with elemental power."
     ["Ice Slam"; "Water Blast"; "Frost Strike"] "Core");
  ("Sonic Boom",
   mkProfile "Air"
     "A bat who uses sonic waves to attack. Sonic Boom's powerful screech can shatter enemies."
     ["Sonic Screech"; "Air Blast"; "Wing Strike"] "Core");
  ("Stealth Elf",
   mkProfile "Life"
     "A ninja elf who moves in shadows. Stealth Elf is a master of stealth and precision strikes."
     ["Stealth Attack"; "Shadow Strike"; "Elf Precision"] "Core");
  ("Stump Smash",
   mkProfile "Life"
     "A tree warrior who uses nature's power. Stump Smash combines plant magic with physical strength."
     ["Root Strike"; "Nature's Wrath"; "Tree Slam"] "Core");
  ("Sunburn",
   mkProfile "Fire"
     "A phoenix who rises from ashes. Sunburn combines fire and air elements in powerful attacks."
     ["Fire Flight"; "Phoenix Strike"; "Flame Rebirth"] "Core");
  ("Terrafin",
   mkProfile "Earth"
     "A shark who burrows through earth. Terrafin combines aquatic power with earth manipulation."
     ["Earth Burrow"; "Shark Strike"; "Ground Slam"] "Core");
  ("Trigger Happy",
   mkProfile "Tech"
     "A gun-slinging troll who never runs out of ammo. Trigger Happy is a master of rapid-fire combat."
     ["Rapid Fire"; "Gun Blast"; "Tech Precision"] "Core");
  ("Voodood",
   mkProfile "Magic"
     "A voodoo shaman who casts powerful curses. Voodood uses dark magic and voodoo dolls in battle."
     ["Voodoo Curse"; "Dark Magic"; "Shaman Strike"] "Core");
  ("Warnado",
   mkProfile "Air"
     "A tornado warrior who controls wind. Warnado spins into battle with devastating force."
     ["Tornado Spin"; "Wind Blast"; "Air Strike"] "Core");
  ("Wham Shell",
   mkProfile "Water"
     "A shell warrior who fights with water and shells. Wham Shell uses his shell as both weapon and shield."
     ["Shell Strike"; "Water Blast"; "Shell Shield"] "Core");
  ("Whirlwind",
   mkProfile "Air"
     "A unicorn who controls wind and rainbows. Whirlwind combines air magic with healing powers."
     ["Rainbow Blast"; "Wind Strike"; "Healing Rain"] "Core");
  ("Wrecking Ball",
   mkProfile "Earth"
     "A mole who rolls into battle. Wrecking Ball uses his round body as a devastating weapon."
     ["Roll Attack"; "Earth Burrow"; "Ball Slam"] "Core");
  ("Zap",
   mkProfile "Water"
     "An electric eel who controls water and electricity. Zap combines aquatic and electric powers."
     ["Electric Blast"; "Water Strike"; "Shock Attack"] "Core");
  ("Zook",
   mkProfile "Life"
     "A musician who uses sound waves. Zook combines music magic with nature's power."
     ["Sound Blast"; "Music Magic"; "Nature's Song"] "Core");
  ("Bouncer",
   mkProfile "Tech"
     "A giant robot who towers over enemies. Bouncer uses massive strength and technology to dominate the battlefield."
     ["Giant Slam"; "Tech Blast"; "Massive Strike"] "Giant");
  ("Crusher",
   mkProfile "Earth"
     "A giant golem made of stone. Crusher crushes everything in his path with earth-shattering power."
     ["Stone Slam"; "Earthquake"; "Giant Strike"] "Giant");
  ("Eye-Brawl",
   mkProfile "Undead"
     "A giant cyclops with a floating eye. Eye-Brawl combines brute strength with mystical vision."
     ["Giant Strike"; "Eye Blast"; "Undead Power"] "Giant");
  ("Hot Head",
   mkProfile "Fire"
     "A giant fire demon who burns everything. Hot Head's flames are as hot as his temper."
     ["Fire Blast"; "Giant Slam"; "Inferno"] "Giant");
  ("Ninjini",
   mkProfile "Magic"
     "A giant genie who grants wishes and fights with magic. Ninjini combines genie magic with ninja skills."
     ["Magic Blast"; "Genie Strike"; "Wish Power"] "Giant");
  ("Swarm",
   mkProfile "Life"
     "A giant bug who commands insects. Swarm uses nature's power and insect armies in battle."
     ["Swarm Attack"; "Insect Strike"; "Nature's Wrath"] "Giant");
  ("Thumpback",
   mkProfile "Water"
     "A giant whale warrior who controls water. Thumpback uses massive size and aquatic power."
     ["Water Blast"; "Giant Slam"; "Whale Strike"] "Giant");
  ("Tree Rex",
   mkProfile "Life"
     "A giant tree warrior who protects nature. Tree Rex combines plant magic with massive strength."
     ["Root Strike"; "Giant Slam"; "Nature's Wrath"] "Giant")
].

(** The list [variants] of [normalize_name]. *)
Definition variants : list string := [
  " (Blue)"; " (Legendary)"; " (Silver)"; " (Gold)"; " (Red)"; " (Clear)";
  " (GITD)"; " (Metallic Purple)"; " (Pearl)"; " (Chrome)"; " (Dark)";
  " (Flocked)"; " (Sidekick)"; " (SideKick)"; " (Halloween)"; " (Sparkle)";
  " (Scarlet)"; " (Gnarly)"; " (Granite)"; " (Meatallic Purple)";
  " (Series 2)"; " (Series 3)"; " (Series 4)"; " (Eons Elite)";
  " (Spring)"; " (Mini)"; " (Legendary Bone Bash)"; " (Bone Bash)";
  " (Dark Sure Shot)"; " (Shark Shooter)"; " (Power Blue Double Dare)";
  " (Lava Lance)"; " (Deep Dive)"; " (Double Dare)"; " (Sure Shot)";
  " (Bronze Bottom)"; " (Gold Bottom)"; " Top"; " Bottom"
].

(** The loop [for variant in variants: name = name.replace(variant, "")]. *)
Definition strip_variants (name : string) : string :=
  fold_left (fun name variant => Str.replace variant "" name) variants name.

(** The pattern of the series numbers: [\s*], [\(Series], [\s+], [\d+], [\)]. *)
Definition series_pattern : regex :=
  sequence [star space; lit "("%char; lits "Series"; plus space; plus digit;
            lit ")"%char].

Definition strip_series (name : string) : string :=
  sub (Flags true false) series_pattern "" name.

(** [name.replace("-", " ").replace("_", " ").strip()] *)
Definition separators_to_spaces (name : string) : string :=
  Str.strip (Str.replace "_" " " (Str.replace "-" " " name)).

(** The two special cases. *)
Definition collapse_aliases (name : string) : string :=
  Str.replace "Weeruptor" "Eruptor" (Str.replace "Crash Bash" "Bash" name).

Definition normalize_name (name : string) : string :=
  let name := strip_variants name in
  let name := strip_series name in
  let name := separators_to_spaces name in
  let name := Str.replace "Crash Bash" "Bash" name in
  let name := Str.replace "Weeruptor" "Eruptor" name in
  name.

(** The order of the steps in the words of the specification: suffixes,
    then aliases, then separators and trimming. *)
Definition normalize_name_spec (name : string) : string :=
  separators_to_spaces (collapse_aliases (strip_series (strip_variants name))).

(** [key in table] and [table[key]] *)
Fixpoint table_get {A : Type} (key : string) (table : list (string * A)) : option A :=
  match table with
  | [] => None
  | (k, v) :: table' => if String.eqb k key then Some v else table_get key table'
  end.

Section Matcher.

(** The table the matcher searches; the program's is [CHARACTER_DATABASE]. *)
Variable database : list (string * CharacterProfile).

(** The loop of the partial match, over the items in their order. *)
Fixpoint partial_match (normalized : string)
    (items : list (string * CharacterProfile)) : option CharacterProfile :=
  match items with
  | [] => None
  | (key, value) :: items' =>
      if Str.contains (Str.lower key) (Str.lower normalized)
         || Str.contains (Str.lower normalized) (Str.lower key)
      then Some value
      else partial_match normalized items'
  end.

Definition find_character_data (character_name : string)
    : option CharacterProfile :=
  let normalized := normalize_name character_name in
  match table_get normalized database with
  | Some value => Some value
  | None => partial_match normalized database
  end.

End Matcher.

(** *** Documents

    What [json.load] returns.  An object keeps its keys in order; a float
    is given by its exact value. *)
#[warning="-register-all"]
Inductive json :=
| JNull
| JBool (b : bool)
| JInt (z : Z)
| JFloat (q : Q)
| JStr (s : string)
| JArr (l : list json)
| JObj (kvs : list (string * json)).

(** Python's truth value. *)
Definition truthy (v : json) : bool :=
  match v with
  | JNull => false
  | JBool b => b
  | JInt z => negb (Z.eqb z 0)
  | JFloat q => negb (Z.eqb (Qnum q) 0)
  | JStr s => match s with EmptyString => false | _ => true end
  | JArr l => match l with [] => false | _ => true end
  | JObj kvs => match kvs with [] => false | _ => true end
  end.

(** [d[key] = v]: in place when the key is there, else at the end. *)
Fixpoint dict_set (key : string) (v : json) (kvs : list (string * json))
    : list (string * json) :=
  match kvs with
  | [] => [(key, v)]
  | (k, x) :: kvs' =>
      if String.eqb k key then (k, v) :: kvs' else (k, x) :: dict_set key v kvs'
  end.

(** [bool(d.get(key))] *)
Definition get_truthy (key : string) (kvs : list (string * json)) : bool :=
  match table_get key kvs with
  | Some v => truthy v
  | None => false
  end.

(** The exceptions the body of [enrich_json_file] can raise. *)
Inductive exn :=
| FileNotFoundError
| JSONDecodeError
| AttributeError (object_type attribute : string)
| EOFError
| WriteException (message : string).

(** A file of the tree: a document, or text that is no JSON. *)
Inductive file_content :=
| Document (data : json)
| Malformed.

(** The name of the Python type of a value. *)
Definition type_name (v : json) : string :=
  match v with
  | JNull => "NoneType"
  | JBool _ => "bool"
  | JInt _ => "int"
  | JFloat _ => "float"
  | JStr _ => "str"
  | JArr _ => "list"
  | JObj _ => "dict"
  end.

(** The lines [enrich_json_file] prints, prompts included. *)
Inductive status :=
| AlreadyHasProfile (character_name : string)
| Enriched (character_name element : string)
| CharacterHeader (character_name : string)
| Prompt (text : string)
| AddedData (character_name : string)
| NoDataFound (character_name : string)
| ErrorProcessing (file_path : string) (e : exn).

(** The world [enrich_json_file] acts on: the files, the lines still to
    be read from the console and the lines printed. *)
Record world := mkWorld {
  files : gmap string file_content;
  stdin : list string;
  stdout : list status
}.

Definition print (w : world) (line : status) : world :=
  mkWorld (files w) (stdin w) (stdout w ++ [line])%list.

(** A computation of the [try] block: a value and the world after it, or
    the exception raised and the world at that point. *)
Definition comp (A : Type) : Type := world -> (exn * world) + (A * world).

Definition ret {A : Type} (a : A) : comp A := fun w => inr (a, w).
Definition raise {A : Type} (e : exn) : comp A := fun w => inl (e, w).
Definition bind {A B : Type} (m : comp A) (k : A -> comp B) : comp B :=
  fun w =>
    match m w with
    | inl ew => inl ew
    | inr (a, w') => k a w'
    end.

Notation "x <- m ;; k" := (bind m (fun x => k))
  (at level 100, m at next level, right associativity).
Notation "m ;;; k" := (bind m (fun _ => k))
  (at level 100, right associativity).

Definition say (line : status) : comp unit := fun w => inr (tt, print w line).

(** [input(prompt).strip()] *)
Definition input_strip (prompt : string) : comp string :=
  fun w =>
    let w' := print w (Prompt prompt) in
    match stdin w' with
    | [] => inl (EOFError, w')
    | line :: rest => inr (Str.strip line, mkWorld (files w') rest (stdout w'))
    end.

(** [json.load] of the file at [file_path]. *)
Definition load (file_path : string) : comp json :=
  fun w =>
    match files w !! file_path with
    | None => inl (FileNotFoundError, w)
    | Some Malformed => inl (JSONDecodeError, w)
    | Some (Document data) => inr (data, w)
    end.

(** [json.dump] to the file at [file_path], when the write is taken;
    [dump_io] below has the writes that raise. *)
Definition dump (file_path : string) (data : json) : comp unit :=
  fun w => inr (tt, mkWorld (<[file_path := Document data]> (files w)) (stdin w) (stdout w)).

(** [s.split(",")] *)
Fixpoint split_comma (s : string) : list string :=
  match s with
  | EmptyString => [""]
  | String a s' =>
      if Ascii.eqb a ","
      then "" :: split_comma s'
      else match split_comma s' with
           | [] => [String a ""]
           | x :: l => String a x :: l
           end
  end.

(** [metadata[key] = value] when [value] is not empty. *)
Definition set_if (key value : string) (v : json) (metadata : list (string * json))
    : list (string * json) :=
  match value with
  | EmptyString => metadata
  | _ => dict_set key v metadata
  end.

Section Enricher.

Variable database : list (string * CharacterProfile).

(** The body of the [try] block.  [metadata] is the object stored in
    [data] when there is one, so writing to it writes to [data]; the
    default of [data.get] is a fresh object that [data] does not hold. *)
Definition enrich_body (file_path : string) (interactive : bool) : comp bool :=
  data <- load file_path ;;
  match data with
  | JObj fields =>
      let stored := table_get "metadata" fields in
      match default (JObj []) stored with
      | JObj metadata =>
          match default (JStr "") (table_get "original_filename" metadata) with
          | JStr filename =>
              let character_name := Str.replace ".nfc" "" filename in
              let save (metadata' : list (string * json)) : comp bool :=
                dump file_path
                  match stored with
                  | Some _ => JObj (dict_set "metadata" (JObj metadata') fields)
                  | None => data
                  end ;;;
                ret true in
              if get_truthy "element" metadata && get_truthy "biography" metadata
              then say (AlreadyHasProfile character_name) ;;; ret false
              else
                match find_character_data database character_name with
                | Some char_data =>
                    let m1 := dict_set "element" (JStr (element char_data)) metadata in
                    let m2 := dict_set "biography" (JStr (biography char_data)) m1 in
                    let m3 := dict_set "abilities"
                                (JArr (List.map JStr (abilities char_data))) m2 in
                    let m4 := dict_set "character_type"
                                (JStr (character_type char_data)) m3 in
                    say (Enriched character_name (element char_data)) ;;;
                    save m4
                | None =>
                    if interactive then
                      say (CharacterHeader character_name) ;;;
                      element <- input_strip
                        "    Element (Fire/Water/Earth/Air/Life/Undead/Tech/Magic/Light/Dark): " ;;
                      biography <- input_strip "    Biography: " ;;
                      abilities_str <- input_strip "    Abilities (comma-separated): " ;;
                      character_type <- input_strip "    Type (Core/Giant/Swapper/etc): " ;;
                      let m1 := set_if "element" element (JStr element) metadata in
                      let m2 := set_if "biography" biography (JStr biography) m1 in
                      let m3 := set_if "abilities" abilities_str
                                  (JArr (List.map (fun a => JStr (Str.strip a))
                                           (split_comma abilities_str))) m2 in
                      let m4 := set_if "character_type" character_type
                                  (JStr character_type) m3 in
                      say (AddedData character_name) ;;;
                      save m4
                    else say (NoDataFound character_name) ;;; ret false
                end
          | other => raise (AttributeError (type_name other) "replace")
          end
      | other => raise (AttributeError (type_name other) "get")
      end
  | other => raise (AttributeError (type_name other) "get")
  end.

(** [enrich_json_file]: an exception of the body is printed and the
    file counts as not enriched. *)
Definition enrich_json_file (file_path : string) (interactive : bool)
    (w : world) : bool * world :=
  match enrich_body file_path interactive w with
  | inr (b, w') => (b, w')
  | inl (e, w') => (false, print w' (ErrorProcessing file_path e))
  end.

(** The loop of [main] over the files found. *)
Definition enrich_all (json_files : list string) (interactive : bool)
    (w : world) : nat * world :=
  fold_left
    (fun st file_path =>
       let r := enrich_json_file file_path interactive st.2 in
       (if r.1 then S st.1 else st.1, r.2))
    json_files (0, w).

End Enricher.

(** ** Writes that fail, in the enricher

    [enrich_json_file] above is the call in which the file system takes
    the write.  The call below is given what its write gives: taken;
    refused, when [open(file_path, 'w')] raises; or cut, when [json.dump]
    raises after [open] has emptied the file (a document that holds a
    lone surrogate is read by [json.load] and cannot be written with
    [ensure_ascii=False]).  A file cut short is no JSON. *)

(** [open(file_path, 'w')] and [json.dump]. *)
Definition dump_io (o : write_result) (file_path : string) (data : json)
    : comp unit :=
  fun w =>
    match o with
    | WriteOk =>
        inr (tt, mkWorld (<[file_path := Document data]> (files w))
                   (stdin w) (stdout w))
    | WriteRefused msg => inl (WriteException msg, w)
    | WriteCut msg =>
        inl (WriteException msg,
             mkWorld (<[file_path := Malformed]> (files w)) (stdin w) (stdout w))
    end.

Section EnricherIo.

Variable database : list (string * CharacterProfile).

(** The body of the [try] block, with what its write gives. *)
Definition enrich_body_io (file_path : string) (interactive : bool)
    (o : write_result) : comp bool :=
  data <- load file_path ;;
  match data with
  | JObj fields =>
      let stored := table_get "metadata" fields in
      match default (JObj []) stored with
      | JObj metadata =>
          match default (JStr "") (table_get "original_filename" metadata) with
          | JStr filename =>
              let character_name := Str.replace ".nfc" "" filename in
              let save (metadata' : list (string * json)) : comp bool :=
                dump_io o file_path
                  match stored with
                  | Some _ => JObj (dict_set "metadata" (JObj metadata') fields)
                  | None => data
                  end ;;;
                ret true in
              if get_truthy "element" metadata && get_truthy "biography" metadata
              then say (AlreadyHasProfile character_name) ;;; ret false
              else
                match find_character_data database character_name with
                | Some char_data =>
                    let m1 := dict_set "element" (JStr (element char_data)) metadata in
                    let m2 := dict_set "biography" (JStr (biography char_data)) m1 in
                    let m3 := dict_set "abilities"
                                (JArr (List.map JStr (abilities char_data))) m2 in
                    let m4 := dict_set "character_type"
                                (JStr (character_type char_data)) m3 in
                    say (Enriched character_name (element char_data)) ;;;
                    save m4
                | None =>
                    if interactive then
                      say (CharacterHeader character_name) ;;;
                      element <- input_strip
                        "    Element (Fire/Water/Earth/Air/Life/Undead/Tech/Magic/Light/Dark): " ;;
                      biography <- input_strip "    Biography: " ;;
                      abilities_str <- input_strip "    Abilities (comma-separated): " ;;
                      character_type <- input_strip "    Type (Core/Giant/Swapper/etc): " ;;
                      let m1 := set_if "element" element (JStr element) metadata in
                      let m2 := set_if "biography" biography (JStr biography) m1 in
                      let m3 := set_if "abilities" abilities_str
                                  (JArr (List.map (fun a => JStr (Str.strip a))
                                           (split_comma abilities_str))) m2 in
                      let m4 := set_if "character_type" character_type
                                  (JStr character_type) m3 in
                      say (AddedData character_name) ;;;
                      save m4
                    else say (NoDataFound character_name) ;;; ret false
                end
          | other => raise (AttributeError (type_name other) "replace")
          end
      | other => raise (AttributeError (type_name other) "get")
      end
  | other => raise (AttributeError (type_name other) "get")
  end.

(** [enrich_json_file], with what its write gives. *)
Definition enrich_json_file_io (file_path : string) (interactive : bool)
    (o : write_result) (w : world) : bool * world :=
  match enrich_body_io file_path interactive o w with
  | inr (b, w') => (b, w')
  | inl (e, w') => (false, print w' (ErrorProcessing file_path e))
  end.

End EnricherIo.

(** ** What a pattern may read

    [sem fl r w rest c c'] holds when [r] can read exactly the word [w]
    in front of the text [rest], turning the captures [c] into [c'].  It
    says nothing of priorities: it tells what the matcher may accept, and
    the matcher accepts something whenever it holds. *)
Fixpoint sem (fl : flags) (r : regex) (w rest : string) (c c' : caps) : Prop :=
  match r with
  | Empty => w = "" /\ c' = c
  | One a => exists x, w = String x "" /\ atom_matches fl a x = true /\ c' = c
  | Seq r1 r2 =>
      exists w1 w2 c1,
        w = Str.cat w1 w2 /\ sem fl r1 w1 (Str.cat w2 rest) c c1 /\
        sem fl r2 w2 rest c1 c'
  | Alt r1 r2 => sem fl r1 w rest c c' \/ sem fl r2 w rest c c'
  | Repeat _ min a =>
      min <= String.length w /\ Str.all (atom_matches fl a) w = true /\ c' = c
  | Times n r1 =>
      (fix go (n : nat) (w : string) (c c' : caps) : Prop :=
         match n with
         | O => w = "" /\ c' = c
         | S n' =>
             exists w1 w2 c1,
               w = Str.cat w1 w2 /\ sem fl r1 w1 (Str.cat w2 rest) c c1 /\
               go n' w2 c1 c'
         end) n w c c'
  | Group n r1 => exists c1, sem fl r1 w rest c c1 /\ c' = (n, w) :: c1
  | AtEnd => w = "" /\ at_end fl rest = true /\ c' = c
  end.

(** The number of characters at the start of [s] that satisfy [p]. *)
Fixpoint run_length (p : ascii -> bool) (s : string) : nat :=
  match s with
  | String a s' => if p a then S (run_length p s') else 0
  | EmptyString => 0
  end.

(** A well-formed block string: 32 characters of [[0-9A-F]]. *)
Definition is_block_string (b : string) : bool :=
  Nat.eqb (String.length b) 32 && Str.all Chr.is_upper_hex b.

(** ** Notions used in the statements *)

Definition no_space (x : ascii) : bool := negb (Chr.is_space x).

(** A pattern without groups leaves the captures as they are. *)
Fixpoint group_free (r : regex) : bool :=
  match r with
  | Empty | One _ | Repeat _ _ _ | AtEnd => true
  | Seq r1 r2 | Alt r1 r2 => group_free r1 && group_free r2
  | Times _ r1 => group_free r1
  | Group _ _ => false
  end.

(** A match whose second group cleans to a well-formed block string. *)
Definition good_match (m : rmatch_obj) : Prop :=
  exists g1 g2, group m 1 = Some g1 /\ group m 2 = Some g2 /\
                is_block_string (clean_block g2) = true.


(** The first character is no white space. *)
Definition starts_solid (s : string) : bool :=
  match s with
  | String a _ => negb (Chr.is_space a)
  | EmptyString => false
  end.

(** The last character is no white space. *)
Fixpoint ends_solid (s : string) : bool :=
  match s with
  | EmptyString => false
  | String a EmptyString => negb (Chr.is_space a)
  | String _ s' => ends_solid s'
  end.

(** No white space at the end: empty, or ending in a solid character. *)
Definition tight (s : string) : bool :=
  match s with
  | EmptyString => true
  | _ => ends_solid s
  end.

(** Neither a hyphen nor an underscore. *)
Definition not_separator (c : ascii) : bool :=
  negb (Ascii.eqb "-" c) && negb (Ascii.eqb "_" c).


(** The characters of [w] are, one by one, those of the literal [p]. *)
Fixpoint lits_accept (fl : flags) (p w : string) : bool :=
  match p, w with
  | EmptyString, EmptyString => true
  | String a p', String x w' =>
      atom_matches fl (Atom false [Lit a]) x && lits_accept fl p' w'
  | _, _ => false
  end.

(** A property of a field that may be absent. *)
Definition when_present (P : string -> Prop) (o : option string) : Prop :=
  match o with
  | Some s => P s
  | None => True
  end.

(** The cleaned data of the last match that carries the index [n]. *)
Fixpoint last_with_index (n : N) (ms : list rmatch_obj) : option string :=
  match ms with
  | [] => None
  | m :: ms' =>
      match last_with_index n ms' with
      | Some b => Some b
      | None =>
          if N.eqb (Str.int (group_text m 1)) n
          then Some (clean_block (group_text m 2)) else None
      end
  end.

(** Captures, results and match objects of the lower-cased text. *)
Definition lower_caps (c : caps) : caps :=
  List.map (fun nw => (nw.1, Str.lower nw.2)) c.

Definition lower_result (x : result) : result :=
  (Str.lower x.1, lower_caps x.2).

Definition lower_match (m : rmatch_obj) : rmatch_obj :=
  Match (Str.lower (m_from m)) (Str.lower (m_rest m)) (lower_caps (m_caps m)).

(** Two continuations that agree up to lower-casing. *)
Definition agree (k k' : cont) : Prop :=
  forall s c, k' (Str.lower s) (lower_caps c) = option_map lower_result (k s c).

(** The error entry [convert_file] records for a file, if any. *)
Definition conversion_error (source_path : path) (f : path * read_result)
    : option (string * string) :=
  let file := path_str (source_path ++ f.1) in
  match f.2 with
  | ReadError msg => Some (file, msg)
  | Text content =>
      if uid_truthy (uid (parse_flipper_nfc_file content).1) then
        match with_suffix f.1 ".json" with
        | Some _ => None
        | None => Some (file, empty_name_error)
        end
      else Some (file, "Missing UID")
  end.

(** The name a dump called [stem ++ ".nfc"] is written under. *)
Definition json_name (stem : string) : string :=
  match stem with
  | EmptyString => ".nfc.json"
  | _ => Str.cat stem ".json"
  end.

Definition not_backslash (c : ascii) : bool := negb (Ascii.eqb "092" c).

(** The text of byte pairs, each with the white space that follows it,
    and their hex digits alone. *)
Fixpoint pairs_text (ps : list (ascii * ascii * string)) : string :=
  match ps with
  | [] => ""
  | (h1, h2, ws) :: ps' => String h1 (String h2 (Str.cat ws (pairs_text ps')))
  end.

Fixpoint pairs_hex (ps : list (ascii * ascii * string)) : string :=
  match ps with
  | [] => ""
  | (h1, h2, _) :: ps' => String h1 (String h2 (pairs_hex ps'))
  end.

Definition pair_ok (p : ascii * ascii * string) : bool :=
  Chr.is_hex p.1.1 && Chr.is_hex p.1.2 && Str.all Chr.is_space p.2.

(** The value a key holds after an answer of the operator. *)
Definition answered (answer : string) (v : json) (before : option json)
    : option json :=
  match answer with
  | EmptyString => before
  | _ => Some v
  end.




(** The lines of a text. *)
Fixpoint lines (s : string) : list string :=
  match s with
  | EmptyString => [""]
  | String a s' =>
      if Ascii.eqb a Chr.newline then "" :: lines s'
      else match lines s' with
           | [] => [String a ""]
           | l :: ls => String a l :: ls
           end
  end.

(** Some line of the text begins, after white space at most, with the
    label [UID:] in any letter case. *)
Definition has_uid_line (content : string) : bool :=
  existsb (fun l => Str.starts_with "uid:" (Str.lower (Str.lstrip l)))
    (lines content).

(** The error entry [convert_file_io] records for a file, if any: that
    of reading or of the record, or else that of the write. *)
Definition conversion_error_io (source_path : path)
    (f : path * read_result * write_result) : option (string * string) :=
  match conversion_error source_path f.1 with
  | Some e => Some e
  | None =>
      match f.2 with
      | WriteOk => None
      | WriteRefused msg | WriteCut msg =>
          Some (path_str (source_path ++ f.1.1), msg)
      end
  end.

(** What a call of the enricher is left with when its write raises:
    [False], the file untouched or cut short, and the line of the
    exception printed last. *)
Definition failed_write (file_path : string) (o : write_result) (w : world)
    (r : bool * world) : Prop :=
  match o with
  | WriteOk => False
  | WriteRefused msg =>
      r.1 = false /\ files r.2 = files w /\
      last (stdout r.2) = Some (ErrorProcessing file_path (WriteException msg))
  | WriteCut msg =>
      r.1 = false /\ files r.2 = <[file_path := Malformed]> (files w) /\
      last (stdout r.2) = Some (ErrorProcessing file_path (WriteException msg))
  end.

(** The decimal indices of the block lines are such as the interpreter
    reads: [int] raises on more than 4300 digits (Python 3.11, unless the
    limit is changed), and [parse_flipper_nfc_file] with it. *)
Definition readable_indices (content : string) : bool :=
  forallb (fun m => Nat.leb (String.length (group_text m 1)) 4300)
    (block_matches content).


(** ** Sample inputs *)

(** The text of a dump, line by line. *)
Definition nl : string := String Chr.newline "".

Fixpoint unlines (ls : list string) : string :=
  match ls with
  | [] => ""
  | l :: ls' => Str.cat l (Str.cat nl (unlines ls'))
  end.

Definition sample_dump : string :=
  unlines ["UID: 04 A2 B3"; "ATQA: 00 04"; "SAK: 08"; "Mifare Classic type: 1K";
           "Block 0: 00 01 02 03 04 05 06 07 08 09 0A 0B 0C 0D 0E 0F"].

(** A block line of 17 byte pairs (34 hex digits) and one of 10 (20). *)
Definition long_block_dump : string :=
  unlines ["UID: 04";
           "Block 1: 00 01 02 03 04 05 06 07 08 09 0A 0B 0C 0D 0E 0F 10"].

Definition short_block_dump : string :=
  unlines ["UID: 04"; "Block 1: 00 01 02 03 04 05 06 07 08 09"].

(** A block line with an index beyond the 64 slots. *)
Definition block_64_dump : string :=
  unlines ["UID: 04";
           "Block 64: 00 01 02 03 04 05 06 07 08 09 0A 0B 0C 0D 0E 0F"].

Definition no_uid_dump : string := unlines ["ATQA: 00 04"; "SAK: 08"].

Definition start_state : conv_state := mkConvState 0 [] ∅ [].





(** A converted document that has no profile yet, and one without metadata. *)
Definition plain_spyro : json :=
  JObj [("uid", JStr "04A2B3");
        ("metadata", JObj [("original_filename", JStr "Spyro (Legendary).nfc");
                           ("category", JStr "Core")])].

Definition bare_document : json := JObj [("uid", JStr "04A2B3")].

Definition unknown_document : json :=
  JObj [("uid", JStr "04A2B3");
        ("metadata", JObj [("original_filename", JStr "Qwxz.nfc")])].

(** Sixteen times the pair [aB] and a space. *)
Definition sample_pairs : list (ascii * ascii * string) :=
  repeat ("a"%char, "B"%char, " ") 16.

(** A dump in which the characters [uid:] end another word. *)
Definition fluid_dump : string := unlines ["Fluid: 04 A2"; "ATQA: 00 04"].


(** * Properties *)

(** ** Strings *)

Section StrFacts.

Implicit Types (s t w : string) (p : ascii -> bool).

Lemma str_cat_empty_r s : Str.cat s "" = s.
Proof. induction s as [|a s IH]; simpl; [reflexivity | now rewrite IH]. Qed.

Lemma str_cat_assoc s t w : Str.cat (Str.cat s t) w = Str.cat s (Str.cat t w).
Proof. induction s as [|a s IH]; simpl; [reflexivity | now rewrite IH]. Qed.

Lemma str_length_cat s t :
  String.length (Str.cat s t) = String.length s + String.length t.
Proof. induction s as [|a s IH]; simpl; [reflexivity | now rewrite IH]. Qed.

Lemma str_take_cat s t : Str.take (String.length s) (Str.cat s t) = s.
Proof. induction s as [|a s IH]; simpl; [now destruct t | now rewrite IH]. Qed.

Lemma str_length_take n s :
  String.length (Str.take n s) = Nat.min n (String.length s).
Proof.
  revert s; induction n as [|n IH]; intros [|a s]; simpl; try reflexivity.
  now rewrite IH.
Qed.

Lemma str_length_drop n s :
  String.length (Str.drop n s) = String.length s - n.
Proof.
  revert s; induction n as [|n IH]; intros [|a s]; simpl; try reflexivity.
  apply IH.
Qed.

Lemma str_all_take p n s : Str.all p s = true -> Str.all p (Str.take n s) = true.
Proof.
  revert s; induction n as [|n IH]; intros [|a s]; simpl; try reflexivity.
  intros [Ha Hs]%andb_prop. rewrite Ha. simpl. now apply IH.
Qed.

Lemma str_all_cat p s t :
  Str.all p (Str.cat s t) = Str.all p s && Str.all p t.
Proof.
  induction s as [|a s IH]; simpl; [reflexivity|].
  now rewrite IH, andb_assoc.
Qed.

Lemma str_filter_cat p s t :
  Str.filter p (Str.cat s t) = Str.cat (Str.filter p s) (Str.filter p t).
Proof.
  induction s as [|a s IH]; simpl; [reflexivity|].
  destruct (p a); simpl; now rewrite IH.
Qed.

Lemma str_length_map f s : String.length (Str.map f s) = String.length s.
Proof. induction s as [|a s IH]; simpl; [reflexivity | now rewrite IH]. Qed.

Lemma str_all_map p q f s :
  (forall a, q a = true -> p (f a) = true) ->
  Str.all q s = true -> Str.all p (Str.map f s) = true.
Proof.
  intros Hf. induction s as [|a s IH]; simpl; [reflexivity|].
  intros [Ha Hs]%andb_prop. rewrite (Hf _ Ha). simpl. now apply IH.
Qed.

Lemma str_all_filter p s : Str.all p (Str.filter p s) = true.
Proof.
  induction s as [|a s IH]; simpl; [reflexivity|].
  destruct (p a) eqn:E; simpl; [now rewrite E|assumption].
Qed.

(** Filtering a string none of whose characters passes leaves nothing. *)
Lemma str_filter_none p s :
  Str.all (fun a => negb (p a)) s = true -> Str.filter p s = "".
Proof.
  induction s as [|a s IH]; simpl; [reflexivity|].
  intros [Ha Hs]%andb_prop. destruct (p a); [discriminate | now apply IH].
Qed.

Lemma str_filter_all p s : Str.all p s = true -> Str.filter p s = s.
Proof.
  induction s as [|a s IH]; simpl; [reflexivity|].
  intros [Ha Hs]%andb_prop. rewrite Ha. now rewrite IH.
Qed.

Lemma consumed_cat w s : consumed (Str.cat w s) s = w.
Proof.
  unfold consumed. rewrite str_length_cat.
  replace (String.length w + String.length s - String.length s)
    with (String.length w) by lia.
  apply str_take_cat.
Qed.

Lemma run_length_le p s : run_length p s <= String.length s.
Proof. induction s as [|a s IH]; simpl; [lia | destruct (p a); lia]. Qed.

Lemma str_all_weaken p q s :
  (forall a, p a = true -> q a = true) ->
  Str.all p s = true -> Str.all q s = true.
Proof.
  intros Hpq. induction s as [|a s IH]; simpl; [reflexivity|].
  intros [Ha Hs]%andb_prop. rewrite (Hpq _ Ha). now apply IH.
Qed.

End StrFacts.

(** ** The matcher reads only what the pattern allows *)

Section ReFacts.

Variable fl : flags.

Lemma repeat_greedy_sound p min k s c res :
  repeat_greedy p min k s c = Some res ->
  exists w s', s = Str.cat w s' /\ min <= String.length w /\
               Str.all p w = true /\ k s' c = Some res.
Proof.
  revert min. induction s as [|a s IH]; intros min; simpl.
  - destruct min; [|discriminate]. intros H.
    exists "", "". repeat split; auto.
  - destruct (p a) eqn:Ha.
    + destruct (repeat_greedy p (Nat.pred min) k s c) eqn:E.
      * intros [= <-]. destruct (IH _ E) as (w & s' & -> & Hlen & Hall & Hk).
        exists (String a w), s'. simpl. rewrite Ha.
        repeat split; auto. lia.
      * destruct min; [|discriminate]. intros H.
        exists "", (String a s). repeat split; auto.
    + destruct min; [|discriminate]. intros H.
      exists "", (String a s). repeat split; auto.
Qed.

Lemma repeat_lazy_sound p min k s c res :
  repeat_lazy p min k s c = Some res ->
  exists w s', s = Str.cat w s' /\ min <= String.length w /\
               Str.all p w = true /\ k s' c = Some res.
Proof.
  revert min. induction s as [|a s IH]; intros min; simpl.
  - destruct min; [|discriminate].
    destruct (k "" c) eqn:E; [|discriminate]. intros [= <-].
    exists "", "". repeat split; auto.
  - assert (Hmore : (if p a then repeat_lazy p (Nat.pred min) k s c else None)
                    = Some res ->
            exists w s', String a s = Str.cat w s' /\ min <= String.length w /\
                         Str.all p w = true /\ k s' c = Some res).
    { destruct (p a) eqn:Ha; [|discriminate]. intros E.
      destruct (IH _ E) as (w & s' & -> & Hlen & Hall & Hk).
      exists (String a w), s'. simpl. rewrite Ha. repeat split; auto. lia. }
    destruct min; [|exact Hmore].
    destruct (k (String a s) c) eqn:E; [|exact Hmore].
    intros [= <-]. exists "", (String a s). repeat split; auto.
Qed.

Theorem rmatch_sound r : forall k s c res,
  rmatch fl r k s c = Some res ->
  exists w s' c', s = Str.cat w s' /\ sem fl r w s' c c' /\ k s' c' = Some res.
Proof.
  induction r as [|a|r1 IH1 r2 IH2|r1 IH1 r2 IH2|g min a|n r1 IH|n r1 IH|];
    intros k s c res; simpl.
  - intros H. exists "", s, c. auto.
  - destruct s as [|x s]; [discriminate|].
    destruct (atom_matches fl a x) eqn:E; [|discriminate]. intros H.
    exists (String x ""), s, c. repeat split; eauto.
  - intros H. destruct (IH1 _ _ _ _ H) as (w1 & s1 & c1 & -> & H1 & H2).
    destruct (IH2 _ _ _ _ H2) as (w2 & s2 & c2 & -> & H3 & H4).
    exists (Str.cat w1 w2), s2, c2. rewrite str_cat_assoc.
    repeat split; auto. exists w1, w2, c1. auto.
  - destruct (rmatch fl r1 k s c) eqn:E.
    + intros [= <-]. destruct (IH1 _ _ _ _ E) as (w & s' & c' & -> & H1 & H2).
      exists w, s', c'. auto.
    + intros H. destruct (IH2 _ _ _ _ H) as (w & s' & c' & -> & H1 & H2).
      exists w, s', c'. auto.
  - destruct g; intros H;
      [apply repeat_greedy_sound in H | apply repeat_lazy_sound in H];
      destruct H as (w & s' & -> & Hlen & Hall & Hk);
      exists w, s', c; auto.
  - revert k s c res. induction n as [|n IHn]; intros k s c res H.
    + exists "", s, c. auto.
    + destruct (IH _ _ _ _ H) as (w1 & s1 & c1 & -> & H1 & H2).
      destruct (IHn _ _ _ _ H2) as (w2 & s2 & c2 & -> & H3 & H4).
      exists (Str.cat w1 w2), s2, c2. rewrite str_cat_assoc.
      repeat split; auto. exists w1, w2, c1. auto.
  - intros H. destruct (IH _ _ _ _ H) as (w & s' & c' & -> & H1 & H2).
    rewrite consumed_cat in H2.
    exists w, s', ((n, w) :: c'). repeat split; auto. exists c'. auto.
  - destruct (at_end fl s) eqn:E; [|discriminate]. intros H.
    exists "", s, c. repeat split; auto.
Qed.

(** Conversely the matcher finds a match whenever there is a word the
    pattern can read with a rest the continuation accepts. *)
Lemma repeat_greedy_complete p k w rest c : forall min,
  Str.all p w = true -> min <= String.length w -> k rest c <> None ->
  repeat_greedy p min k (Str.cat w rest) c <> None.
Proof.
  induction w as [|a w IH]; intros min Hall Hmin Hk.
  - simpl in Hmin. assert (min = 0) as -> by lia. cbn [Str.cat].
    destruct rest as [|x rest]; simpl; [exact Hk|].
    destruct (p x); [|exact Hk].
    now destruct (repeat_greedy p 0 k rest c).
  - cbn [Str.all] in Hall. apply andb_prop in Hall as [Ha Hall].
    cbn [Str.cat repeat_greedy]. rewrite Ha.
    assert (H : repeat_greedy p (Nat.pred min) k (Str.cat w rest) c <> None).
    { apply IH; auto. simpl in Hmin. lia. }
    now destruct (repeat_greedy p (Nat.pred min) k (Str.cat w rest) c).
Qed.

Lemma repeat_lazy_complete p k w rest c : forall min,
  Str.all p w = true -> min <= String.length w -> k rest c <> None ->
  repeat_lazy p min k (Str.cat w rest) c <> None.
Proof.
  induction w as [|a w IH]; intros min Hall Hmin Hk.
  - simpl in Hmin. assert (min = 0) as -> by lia. cbn [Str.cat].
    destruct rest as [|x rest]; simpl; now destruct (k _ c).
  - cbn [Str.all] in Hall. apply andb_prop in Hall as [Ha Hall].
    cbn [Str.cat repeat_lazy]. rewrite Ha.
    assert (H : repeat_lazy p (Nat.pred min) k (Str.cat w rest) c <> None).
    { apply IH; auto. simpl in Hmin. lia. }
    destruct min; [|exact H].
    now destruct (k (String a (Str.cat w rest)) c).
Qed.

Theorem rmatch_complete r : forall k w rest c c',
  sem fl r w rest c c' -> k rest c' <> None ->
  rmatch fl r k (Str.cat w rest) c <> None.
Proof.
  induction r as [|a|r1 IH1 r2 IH2|r1 IH1 r2 IH2|g min a|n r1 IH|n r1 IH|];
    intros k w rest c c' H Hk; simpl in H.
  - destruct H as [-> ->]. exact Hk.
  - destruct H as (x & -> & Hx & ->). simpl. now rewrite Hx.
  - destruct H as (w1 & w2 & c1 & -> & H1 & H2).
    rewrite str_cat_assoc. cbn [rmatch].
    apply (IH1 _ _ _ _ _ H1). now apply (IH2 _ _ _ _ _ H2).
  - cbn [rmatch]. destruct (rmatch fl r1 k (Str.cat w rest) c) eqn:E;
      [discriminate|].
    destruct H as [H|H]; [|now apply (IH2 _ _ _ _ _ H)].
    now destruct (IH1 _ _ _ _ _ H Hk).
  - destruct H as (Hmin & Hall & ->).
    destruct g; cbn [rmatch];
      [now apply repeat_greedy_complete | now apply repeat_lazy_complete].
  - cbn [rmatch]. revert k w c c' H Hk.
    induction n as [|n IHn]; intros k w c c' H Hk.
    + destruct H as [-> ->]. exact Hk.
    + destruct H as (w1 & w2 & c1 & -> & H1 & H2).
      rewrite str_cat_assoc.
      apply (IH _ _ _ _ _ H1). now apply (IHn _ _ _ _ H2).
  - destruct H as (c1 & H & ->). cbn [rmatch].
    apply (IH _ _ _ _ _ H). now rewrite consumed_cat.
  - destruct H as (-> & E & ->). simpl. now rewrite E.
Qed.

Lemma match_here_complete r w rest c' :
  sem fl r w rest [] c' -> match_here fl r (Str.cat w rest) <> None.
Proof.
  intros H. unfold match_here.
  assert (E : rmatch fl r (fun s' c' => Some (s', c')) (Str.cat w rest) [] <> None)
    by (now apply (rmatch_complete _ _ _ _ _ _ H)).
  destruct (rmatch fl r _ (Str.cat w rest) []) as [[? ?]|]; [discriminate | easy].
Qed.

(** A match object comes from a word the pattern can read. *)
Lemma match_here_sound r s m :
  match_here fl r s = Some m ->
  exists w, s = Str.cat w (m_rest m) /\ m_from m = s /\
              sem fl r w (m_rest m) [] (m_caps m).
Proof.
  unfold match_here.
  destruct (rmatch fl r _ s []) as [[s' c']|] eqn:E; [|discriminate].
  intros [= <-]. simpl.
  destruct (rmatch_sound _ _ _ _ _ E) as (w & s1 & c1 & -> & Hsem & [= <- <-]).
  exists w. auto.
Qed.

Lemma search_here r s m :
  match_here fl r s = Some m -> search fl r s = Some m.
Proof. intros H. destruct s; simpl; now rewrite H. Qed.

Lemma search_sound r s m :
  search fl r s = Some m -> exists s0, match_here fl r s0 = Some m.
Proof.
  induction s as [|a s IH]; simpl.
  - destruct (match_here fl r "") eqn:E; [|discriminate].
    intros [= <-]. eauto.
  - destruct (match_here fl r (String a s)) eqn:E; [|exact IH].
    intros [= <-]. eauto.
Qed.

Lemma finditer_scan_sound r s : forall skip m,
  In m (finditer_scan fl r skip s) -> exists s0, match_here fl r s0 = Some m.
Proof.
  induction s as [|a s IH]; intros skip m; simpl.
  - destruct skip; simpl; [|tauto].
    destruct (match_here fl r "") eqn:E; simpl; [|tauto].
    intros [<-|[]]. eauto.
  - destruct skip; [|apply IH].
    destruct (match_here fl r (String a s)) eqn:E; [|apply IH].
    intros [<-|H]; [eauto | exact (IH _ _ H)].
Qed.

End ReFacts.

(** ** Character classes, computed over the 256 characters *)

Ltac by_cases_on_char x :=
  destruct x as [[] [] [] [] [] [] [] []]; vm_compute; try reflexivity;
  try discriminate; auto.

Lemma hex_atom_icase x : atom_matches icase_multiline hex x = Chr.is_hex x.
Proof. by_cases_on_char x. Qed.

Lemma not_hex_atom_icase x :
  atom_matches (Flags true false) not_hex x = negb (Chr.is_hex x).
Proof. by_cases_on_char x. Qed.

Lemma space_atom fl x : atom_matches fl space x = Chr.is_space x.
Proof. destruct fl as [[] []]; by_cases_on_char x. Qed.

Lemma hex_or_space_atom_icase x :
  atom_matches icase_multiline hex_or_space x = Chr.is_hex x || Chr.is_space x.
Proof. by_cases_on_char x. Qed.

Lemma hex_not_space x : Chr.is_hex x = true -> Chr.is_space x = false.
Proof. by_cases_on_char x. Qed.

Lemma upper_hex x : Chr.is_hex x = true -> Chr.is_upper_hex (Chr.upper x) = true.
Proof. by_cases_on_char x. Qed.

(** ** Substitution of a one-character pattern *)

Section SubFacts.

Variable fl : flags.
Variable a : atom.

Let p := atom_matches fl a.
Let final : cont := fun s' c' => Some (s', c').

Lemma repeat_greedy_final min s c :
  repeat_greedy p min final s c =
  if Nat.leb min (run_length p s)
  then Some (Str.drop (run_length p s) s, c) else None.
Proof.
  revert min. induction s as [|x s IH]; intros min; simpl.
  - now destruct min.
  - destruct (p x) eqn:Hx.
    + rewrite IH. destruct min as [|min]; simpl.
      * reflexivity.
      * destruct (Nat.leb min (run_length p s)); reflexivity.
    + now destruct min.
Qed.

Lemma match_here_plus s :
  match_here fl (plus a) s =
  if Nat.leb 1 (run_length p s)
  then Some (Match s (Str.drop (run_length p s) s) []) else None.
Proof.
  unfold match_here, plus. simpl.
  change (repeat_greedy (atom_matches fl a) 1 (fun s' c' => Some (s', c')) s [])
    with (repeat_greedy p 1 final s []).
  rewrite repeat_greedy_final.
  now destruct (run_length p s).
Qed.

Lemma length_consumed_run s :
  String.length (consumed s (Str.drop (run_length p s) s)) = run_length p s.
Proof.
  unfold consumed. rewrite str_length_take, str_length_drop.
  pose proof (run_length_le p s). lia.
Qed.

(** [re.sub] of [a+] by nothing removes the characters of [a]. *)
Lemma sub_scan_plus s : forall n,
  n <= run_length p s ->
  sub_scan fl (plus a) "" n s = Str.filter (fun x => negb (p x)) s.
Proof.
  induction s as [|x s IH]; intros n Hn.
  - simpl in Hn. assert (n = 0) as -> by lia. reflexivity.
  - destruct n as [|n].
    + cbn [sub_scan]. rewrite match_here_plus.
      cbn [run_length Str.filter]. destruct (p x) eqn:Hx; simpl.
      * pose proof (length_consumed_run (String x s)) as L.
        cbn [run_length] in L. rewrite Hx in L. cbn [Str.drop] in L.
        rewrite L. apply IH. lia.
      * f_equal. apply IH. lia.
    + cbn [sub_scan Str.filter]. cbn [run_length] in Hn.
      destruct (p x) eqn:Hx; [|lia]. simpl. apply IH. lia.
Qed.

Lemma sub_plus s :
  sub fl (plus a) "" s = Str.filter (fun x => negb (p x)) s.
Proof. apply sub_scan_plus. lia. Qed.

(** [re.sub] of the one-character pattern [a] by nothing does the same. *)
Lemma sub_one s :
  sub fl (One a) "" s = Str.filter (fun x => negb (p x)) s.
Proof.
  unfold sub. induction s as [|x s IH]; [reflexivity|].
  cbn [sub_scan Str.filter]. unfold match_here. cbn [rmatch].
  fold p. destruct (p x) eqn:Hx; simpl.
  - unfold consumed. simpl.
    replace (S (String.length s) - String.length s) with 1 by lia.
    simpl. exact IH.
  - f_equal. exact IH.
Qed.

End SubFacts.

Lemma str_filter_ext p q s :
  (forall x, p x = q x) -> Str.filter p s = Str.filter q s.
Proof.
  intros H. induction s as [|x s IH]; simpl; [reflexivity|].
  now rewrite H, IH.
Qed.

(** Cleaning a block keeps what is no white space, in upper case. *)
Lemma clean_block_filter g :
  clean_block g = Str.upper (Str.filter (fun x => negb (Chr.is_space x)) g).
Proof.
  unfold clean_block. rewrite sub_plus. f_equal.
  apply str_filter_ext. intros x. now rewrite space_atom.
Qed.

(** Cleaning a UID keeps the hex digits, in upper case. *)
Lemma clean_uid_filter s : clean_uid s = Str.upper (Str.filter Chr.is_hex s).
Proof.
  unfold clean_uid. rewrite sub_one. f_equal.
  apply str_filter_ext. intros x. rewrite not_hex_atom_icase. apply negb_involutive.
Qed.

(** ** Block lines *)

(** What the second group of the block pattern reads leaves, once the
    white space is gone, two hex digits for each of its turns. *)
Lemma block_body_read n : forall w rest c c',
  sem icase_multiline (Times n (Seq (Times 2 (One hex)) (star space))) w rest c c' ->
  String.length (Str.filter no_space w) = 2 * n /\
  Str.all Chr.is_hex (Str.filter no_space w) = true.
Proof.
  induction n as [|n IH]; intros w rest c c' H.
  - destruct H as [-> _]. split; reflexivity.
  - destruct H as (w1 & w2 & c1 & -> & H1 & H2).
    apply IH in H2 as [L A].
    destruct H1 as (wa & wb & c2 & -> & Ha & Hb).
    destruct Ha as (x1 & t1 & c3 & -> & (x & -> & Hx & _) & Ha).
    destruct Ha as (y1 & t2 & c4 & -> & (y & -> & Hy & _) & -> & _).
    destruct Hb as (_ & Hb & _).
    rewrite hex_atom_icase in Hx, Hy.
    assert (Hwb : Str.filter no_space wb = "").
    { apply str_filter_none. eapply str_all_weaken; [|exact Hb].
      intros z Hz. rewrite space_atom in Hz. unfold no_space. now rewrite Hz. }
    rewrite !str_filter_cat, Hwb. simpl. unfold no_space at 1 2 4 5.
    rewrite (hex_not_space _ Hx), (hex_not_space _ Hy). simpl.
    rewrite Hx, Hy, L, A. split; [lia | reflexivity].
Qed.

Lemma is_block_string_upper w :
  String.length w = 32 -> Str.all Chr.is_hex w = true ->
  is_block_string (Str.upper w) = true.
Proof.
  intros L A. unfold is_block_string, Str.upper.
  rewrite str_length_map, L. simpl.
  eapply str_all_map; [exact upper_hex | exact A].
Qed.

Lemma sem_group_free fl r : forall w rest c c',
  group_free r = true -> sem fl r w rest c c' -> c' = c.
Proof.
  induction r as [|a|r1 IH1 r2 IH2|r1 IH1 r2 IH2|g min a|n r1 IH|n r1 IH|];
    intros w rest c c' G H; simpl in G, H.
  - tauto.
  - destruct H as (? & _ & _ & ->). reflexivity.
  - apply andb_prop in G as [G1 G2].
    destruct H as (w1 & w2 & c1 & _ & H1 & H2).
    apply IH1 in H1; auto. apply IH2 in H2; auto. congruence.
  - apply andb_prop in G as [G1 G2].
    destruct H as [H|H]; [now apply IH1 in H | now apply IH2 in H].
  - tauto.
  - revert w c c' H. induction n as [|n IHn]; intros w c c' H.
    + tauto.
    + destruct H as (w1 & w2 & c1 & _ & H1 & H2).
      apply IH in H1; auto. apply IHn in H2. congruence.
  - discriminate.
  - tauto.
Qed.

(** A match of the block pattern has both groups, and its second group
    cleans to a well-formed block string. *)
Lemma block_match_groups s m :
  match_here icase_multiline block_pattern s = Some m ->
  exists g1 g2, group m 1 = Some g1 /\ group m 2 = Some g2 /\
                is_block_string (clean_block g2) = true.
Proof.
  intros H. apply match_here_sound in H as (w & _ & _ & H).
  unfold block_pattern, block_body in H. cbn [sequence lits] in H.
  destruct H as (? & ? & ? & _ & _ & H).
  destruct H as (? & ? & ? & _ & _ & H).
  destruct H as (g1 & ? & ? & _ & (c1 & _ & ->) & H).
  destruct H as (? & ? & ? & _ & (? & _ & _ & ->) & H).
  destruct H as (? & g2 & ? & _ & (_ & _ & ->) & H).
  destruct H as (c2 & H2 & E).
  assert (c2 = (1, g1) :: c1) as ->
    by (eapply sem_group_free; [|exact H2]; reflexivity).
  apply block_body_read in H2 as [L A].
  exists g1, g2. unfold group. rewrite E. cbn [group_of Nat.eqb].
  repeat split.
  rewrite clean_block_filter. now apply is_block_string_upper.
Qed.

(** ** The loop over the block matches *)

Lemma block_matches_good content :
  Forall good_match (block_matches content).
Proof.
  apply List.Forall_forall. intros m Hm.
  apply finditer_scan_sound in Hm as [s0 Hs0].
  exact (block_match_groups _ _ Hs0).
Qed.

Lemma is_block_string_spec b :
  is_block_string b = true <->
  String.length b = 32 /\ Str.all Chr.is_upper_hex b = true.
Proof.
  unfold is_block_string. rewrite andb_true_iff, Nat.eqb_eq. tauto.
Qed.

(** Such a match takes the first branch: the block is stored as it is and
    nothing is printed. *)
Lemma block_step_good st m :
  good_match m ->
  block_step st m =
  (<[Str.int (group_text m 1) := clean_block (group_text m 2)]> st.1, st.2).
Proof.
  intros (g1 & g2 & E1 & E2 & G). unfold block_step, group_text.
  rewrite E2. simpl. apply is_block_string_spec in G as [-> _]. reflexivity.
Qed.

Lemma block_loop ms : forall st,
  Forall good_match ms ->
  (fold_left block_step ms st).2 = st.2 /\
  forall n b, (fold_left block_step ms st).1 !! n = Some b ->
    st.1 !! n = Some b \/
    (is_block_string b = true /\
     exists m, In m ms /\ Str.int (group_text m 1) = n).
Proof.
  induction ms as [|m ms IH]; intros st Hms; simpl.
  - split; auto.
  - apply List.Forall_cons_iff in Hms as [Hm Hms].
    destruct (IH (block_step st m) Hms) as [Hlog Hmap].
    rewrite (block_step_good _ _ Hm) in Hlog, Hmap. simpl in Hlog, Hmap.
    rewrite (block_step_good _ _ Hm). split; [exact Hlog|].
    intros n b Hb. destruct (Hmap n b Hb) as [H|(G & m' & Hin & E)].
    + destruct (decide (Str.int (group_text m 1) = n)) as [<-|Hne].
      * rewrite lookup_insert_eq in H. injection H as <-. right. split.
        -- destruct Hm as (g1 & g2 & _ & E2 & G). unfold group_text.
           now rewrite E2.
        -- exists m. auto.
      * rewrite lookup_insert_ne in H by assumption. now left.
    + right. split; [exact G|]. exists m'. auto.
Qed.

(** The parser never prints a diagnostic. *)
Lemma scan_blocks_silent content : (scan_blocks content).2 = [].
Proof.
  unfold scan_blocks.
  now destruct (block_loop _ (∅, []) (block_matches_good content)) as [-> _].
Qed.

Lemma scan_blocks_lookup content n b :
  (scan_blocks content).1 !! n = Some b ->
  is_block_string b = true /\
  exists m, In m (block_matches content) /\ Str.int (group_text m 1) = n.
Proof.
  unfold scan_blocks. intros H.
  destruct (block_loop _ (∅, []) (block_matches_good content)) as [_ Hmap].
  destruct (Hmap n b H) as [E|E]; [|exact E].
  simpl in E. rewrite lookup_empty in E. discriminate.
Qed.

Lemma assemble_blocks_nth found i :
  i < 64 ->
  nth_error (assemble_blocks found) i =
  Some (default empty_block (found !! N.of_nat i)).
Proof.
  intros Hi. unfold assemble_blocks.
  rewrite nth_error_map, nth_error_seq.
  destruct (Nat.ltb_spec i 64) as [_|]; [reflexivity | lia].
Qed.

(** C1.  For every text the record has 64 blocks, each of exactly 32
    characters of [[0-9A-F]], and every index below 64 that no block line
    of the text carries holds the 32 zeros. *)
Theorem blocks_always_64_of_32_hex (content : string) :
  let r := (parse_flipper_nfc_file content).1 in
  length (blocks r) = 64 /\
  (forall b, In b (blocks r) ->
     String.length b = 32 /\ Str.all Chr.is_upper_hex b = true) /\
  (forall i, i < 64 ->
     (forall m, In m (block_matches content) ->
        Str.int (group_text m 1) <> N.of_nat i) ->
     nth_error (blocks r) i = Some "00000000000000000000000000000000").
Proof.
  intros r. subst r. unfold parse_flipper_nfc_file. cbn [fst blocks].
  split; [|split].
  - unfold assemble_blocks. now rewrite List.length_map, length_seq.
  - intros b Hb. apply is_block_string_spec.
    unfold assemble_blocks in Hb. apply in_map_iff in Hb as (i & <- & _).
    destruct ((scan_blocks content).1 !! N.of_nat i) as [b|] eqn:E; simpl.
    + now apply scan_blocks_lookup in E as [G _].
    + reflexivity.
  - intros i Hi Hnone. rewrite assemble_blocks_nth by assumption.
    destruct ((scan_blocks content).1 !! N.of_nat i) as [b|] eqn:E; simpl.
    + apply scan_blocks_lookup in E as (_ & m & Hin & Hm).
      now destruct (Hnone m Hin).
    + reflexivity.
Qed.

Lemma blocks_always_64_of_32_hex_witness :
  nth_error (blocks (parse_flipper_nfc_file sample_dump).1) 1
  = Some "00000000000000000000000000000000".
Proof.
  apply (blocks_always_64_of_32_hex sample_dump); [lia|].
  intros m Hm. vm_compute in Hm. destruct Hm as [<-|[]]. vm_compute. discriminate.
Defined.

(** C2.  The sample dump of the specification parses to the UID, ATQA,
    SAK and type it shows, its block 0 and 63 blocks of 32 zeros. *)
Theorem sample_dump_parses :
  let r := (parse_flipper_nfc_file sample_dump).1 in
  uid r = Some "04A2B3" /\ atqa r = Some "0004" /\ sak r = Some "08" /\
  mifare_type r = Some "1K" /\
  nth_error (blocks r) 0 = Some "000102030405060708090A0B0C0D0E0F" /\
  skipn 1 (blocks r) = repeat "00000000000000000000000000000000" 63.
Proof. vm_compute. repeat split. Qed.

(** The sample dump, written out with its line ends. *)
Lemma sample_dump_text :
  sample_dump = "UID: 04 A2 B3
ATQA: 00 04
SAK: 08
Mifare Classic type: 1K
Block 0: 00 01 02 03 04 05 06 07 08 09 0A 0B 0C 0D 0E 0F
".
Proof. reflexivity. Qed.

(** C3.  The ATQA and SAK patterns carry no [IGNORECASE]: a lower-case
    label is not found, and a lower-case hex digit ends the value, where
    the upper-case forms give the whole value. *)
Theorem atqa_sak_case_sensitive :
  let lower_labels := (parse_flipper_nfc_file
                         (unlines ["UID: 04"; "atqa: 00 04"; "sak: 08"])).1 in
  let upper_labels := (parse_flipper_nfc_file
                         (unlines ["UID: 04"; "ATQA: 00 04"; "SAK: 08"])).1 in
  let lower_digits := (parse_flipper_nfc_file
                         (unlines ["UID: 04"; "ATQA: 0a 04"; "SAK: c8"])).1 in
  let upper_digits := (parse_flipper_nfc_file
                         (unlines ["UID: 04"; "ATQA: 0A 04"; "SAK: C8"])).1 in
  atqa lower_labels = None /\ sak lower_labels = None /\
  atqa upper_labels = Some "0004" /\ sak upper_labels = Some "08" /\
  atqa lower_digits = Some "0" /\ sak lower_digits = Some "" /\
  atqa upper_digits = Some "0A04" /\ sak upper_digits = Some "C8" /\
  uid (parse_flipper_nfc_file (unlines ["uid: 0a"])).1 = Some "0A".
Proof. vm_compute. repeat split. Qed.


(** At the two sample lines nothing is printed either. *)
Example malformed_block_lines_silent :
  (parse_flipper_nfc_file long_block_dump).2 = [] /\
  (parse_flipper_nfc_file short_block_dump).2 = [].
Proof. split; apply scan_blocks_silent. Qed.

(** C6.  The line of block 64 matches the block pattern and its data is
    stored under 64, yet no slot of the record holds it and nothing is
    printed. *)
Theorem block_64_dropped_silently :
  List.map (fun m => (Str.int (group_text m 1), clean_block (group_text m 2)))
      (block_matches block_64_dump)
    = [(64%N, "000102030405060708090A0B0C0D0E0F")] /\
  (scan_blocks block_64_dump).1 !! 64%N = Some "000102030405060708090A0B0C0D0E0F" /\
  blocks (parse_flipper_nfc_file block_64_dump).1
    = repeat "00000000000000000000000000000000" 64 /\
  (parse_flipper_nfc_file block_64_dump).2 = [].
Proof. vm_compute. repeat split. Qed.

(** ** The UID line *)

(** The literal [UID:] under [IGNORECASE], on the lower-cased text. *)
Lemma lit_icase m a x :
  atom_matches (Flags true m) (Atom false [Lit a]) x
  = Ascii.eqb (Chr.lower a) (Chr.lower x).
Proof. unfold atom_matches. simpl. now rewrite orb_false_r. Qed.

Lemma uid_needs_label k s c :
  Str.starts_with "uid:" (Str.lower s) = false ->
  rmatch icase_multiline uid_pattern k s c = None.
Proof.
  unfold uid_pattern. cbn [sequence lits rmatch]. unfold lit.
  destruct s as [|x1 [|x2 [|x3 [|x4 s]]]];
    cbn [Str.lower Str.map Str.starts_with rmatch];
    unfold icase_multiline; rewrite ?lit_icase;
    change (Chr.lower "U") with "u"%char; change (Chr.lower "I") with "i"%char;
    change (Chr.lower "D") with "d"%char; change (Chr.lower ":") with ":"%char;
    intros H.
  - reflexivity.
  - destruct (Ascii.eqb "u" (Chr.lower x1)); reflexivity.
  - destruct (Ascii.eqb "u" (Chr.lower x1)); [|reflexivity].
    destruct (Ascii.eqb "i" (Chr.lower x2)); reflexivity.
  - destruct (Ascii.eqb "u" (Chr.lower x1)); [|reflexivity].
    destruct (Ascii.eqb "i" (Chr.lower x2)); [|reflexivity].
    destruct (Ascii.eqb "d" (Chr.lower x3)); reflexivity.
  - destruct (Ascii.eqb "u" (Chr.lower x1)); [|reflexivity].
    destruct (Ascii.eqb "i" (Chr.lower x2)); [|reflexivity].
    destruct (Ascii.eqb "d" (Chr.lower x3)); [|reflexivity].
    destruct (Ascii.eqb ":" (Chr.lower x4)); [discriminate|reflexivity].
Qed.

(** A text without the label, in any letter case, has no UID match. *)
Lemma no_label_no_uid_match content :
  Str.contains "uid:" (Str.lower content) = false ->
  uid_match content = None.
Proof.
  unfold uid_match.
  induction content as [|x s IH]; intros H.
  - reflexivity.
  - cbn [Str.lower Str.map Str.contains] in H.
    apply orb_false_iff in H as [H1 H2].
    cbn [search]. unfold match_here at 1.
    rewrite (uid_needs_label _ (String x s) []) by exact H1.
    apply IH. exact H2.
Qed.

Lemma no_label_no_uid content :
  Str.contains "uid:" (Str.lower content) = false ->
  uid (parse_flipper_nfc_file content).1 = None.
Proof.
  intros H. simpl. unfold extract_uid. now rewrite no_label_no_uid_match.
Qed.

(** ** The loop over the files *)

Lemma parse_prints_nothing content : (parse_flipper_nfc_file content).2 = [].
Proof. apply scan_blocks_silent. Qed.

(** A record whose UID is not true in Python's sense is set aside: one
    error entry, nothing written, nothing counted. *)
Lemma convert_file_missing_uid source_path output_path total st rel content :
  uid_truthy (uid (parse_flipper_nfc_file content).1) = false ->
  convert_file source_path output_path total st (rel, Text content) =
  mkConvState (converted_count st)
    (errors st ++ [(path_str (source_path ++ rel), "Missing UID")])
    (written st) (printed st).
Proof.
  intros H. unfold convert_file. cbn [fst snd].
  rewrite H. cbn [negb]. rewrite parse_prints_nothing. simpl.
  now rewrite app_nil_r.
Qed.

(** C5.  A file whose text holds the characters [UID:] nowhere, in any
    letter case and at any place of a line, and whose block indices the
    interpreter reads, adds exactly one error entry for itself, the
    ["Missing UID"] one, writes nothing and counts nothing, and the loop
    goes on with the files that remain. *)
Theorem no_uid_line_recorded_and_skipped
    (source_path output_path : path) (total : nat) (st : conv_state)
    (rel : path) (content : string) (rest : list (path * read_result)) :
  Str.contains "uid:" (Str.lower content) = false ->
  readable_indices content = true ->
  let st' := convert_file source_path output_path total st (rel, Text content) in
  errors st' = (errors st ++ [(path_str (source_path ++ rel), "Missing UID")])%list /\
  written st' = written st /\
  converted_count st' = converted_count st /\
  convert_loop source_path output_path total st ((rel, Text content) :: rest)
  = convert_loop source_path output_path total st' rest.
Proof.
  intros H _ st'. subst st'.
  unfold convert_loop. cbn [fold_left].
  rewrite convert_file_missing_uid by (now rewrite no_label_no_uid).
  repeat split.
Qed.

Lemma no_uid_line_recorded_and_skipped_witness :
  Str.contains "uid:" (Str.lower no_uid_dump) = false /\
  readable_indices no_uid_dump = true /\
  let st' := convert_file ["dumps"] ["out"] 1 start_state
               (["Spyro.nfc"], Text no_uid_dump) in
  errors st' = errors start_state
               ++ [(path_str (["dumps"] ++ ["Spyro.nfc"]), "Missing UID")] /\
  written st' = written start_state /\
  converted_count st' = converted_count start_state /\
  convert_loop ["dumps"] ["out"] 1 start_state [(["Spyro.nfc"], Text no_uid_dump)]
  = convert_loop ["dumps"] ["out"] 1 st' [].
Proof.
  split; [reflexivity|]. split; [reflexivity|].
  apply (no_uid_line_recorded_and_skipped ["dumps"] ["out"] 1 start_state
           ["Spyro.nfc"] no_uid_dump []); reflexivity.
Defined.

(** ** A UID line without hex digits *)

Lemma all_lstrip p s : Str.all p s = true -> Str.all p (Str.lstrip s) = true.
Proof.
  induction s as [|a s IH]; simpl; [reflexivity|].
  intros H. destruct (Chr.is_space a); [|exact H].
  apply andb_prop in H as [_ H]. now apply IH.
Qed.

Lemma all_rstrip p s : Str.all p s = true -> Str.all p (Str.rstrip s) = true.
Proof.
  induction s as [|a s IH]; simpl; [reflexivity|].
  intros [Ha Hs]%andb_prop. specialize (IH Hs).
  destruct (Str.rstrip s) as [|b t].
  - destruct (Chr.is_space a); simpl; [reflexivity | now rewrite Ha].
  - cbn [Str.all]. now rewrite Ha.
Qed.

Lemma all_strip p s : Str.all p s = true -> Str.all p (Str.strip s) = true.
Proof. intros H. unfold Str.strip. now apply all_rstrip, all_lstrip. Qed.


(** *** When the captured value holds no hex digit

    A UID line whose value is white space, followed by a line that is
    not made of hex digits and white space alone. *)

Lemma cat_eq_split u : forall z t v,
  Str.cat u t = Str.cat z v ->
  (exists d, z = Str.cat u d /\ t = Str.cat d v) \/
  (exists a d, u = Str.cat z (String a d) /\ v = Str.cat (String a d) t).
Proof.
  induction u as [|x u IH]; intros z t v E.
  - left. exists z. auto.
  - destruct z as [|y z].
    + right. exists x, u. auto.
    + simpl in E. injection E as <- E.
      destruct (IH _ _ _ E) as [(d & -> & ->)|(a & d & -> & ->)].
      * left. exists d. auto.
      * right. exists a, d. auto.
Qed.





Lemma sem_lits fl p : forall w rest c,
  lits_accept fl p w = true -> sem fl (lits p) w rest c c.
Proof.
  induction p as [|a p IH]; intros [|x w] rest c H; try discriminate H.
  - split; reflexivity.
  - cbn [lits_accept] in H. apply andb_prop in H as [Hx Hw].
    exists (String x ""), w, c. repeat split.
    + exists x. auto.
    + now apply IH.
Qed.

Lemma sem_lits_length fl p : forall w rest c c',
  sem fl (lits p) w rest c c' -> String.length w = String.length p.
Proof.
  induction p as [|a p IH]; intros w rest c c' H.
  - now destruct H as [-> _].
  - destruct H as (w1 & w2 & c1 & -> & (x & -> & _ & _) & H2).
    simpl. f_equal. exact (IH _ _ _ _ H2).
Qed.

Lemma cat_same_length u : forall z t v,
  String.length u = String.length z -> Str.cat u t = Str.cat z v ->
  u = z /\ t = v.
Proof.
  induction u as [|x u IH]; intros [|y z] t v L E; try discriminate L.
  - auto.
  - simpl in L, E. injection L as L. injection E as <- E.
    destruct (IH _ _ _ L E) as [-> ->]. auto.
Qed.



Lemma lower_label lab :
  Str.lower lab = "uid:" -> lits_accept icase_multiline "UID:" lab = true.
Proof.
  destruct lab as [|l1 [|l2 [|l3 [|l4 [|l5 lab]]]]]; try discriminate.
  cbn [Str.lower Str.map]. intros [= E1 E2 E3 E4].
  cbn [lits_accept]. unfold icase_multiline. rewrite !lit_icase.
  now rewrite E1, E2, E3, E4.
Qed.


(** The white space after the label may run over the line end: a value
    of hex digits on the next line is then the one captured, and a blank
    line before other text may give no match at all. *)
Example uid_read_from_next_line :
  uid (parse_flipper_nfc_file (unlines ["UID: "; "AB"])).1 = Some "AB" /\
  uid (parse_flipper_nfc_file (unlines ["UID:"; "ATQA: 00 04"])).1 = None /\
  uid (parse_flipper_nfc_file (unlines ["UID: "; "ATQA: 00 04"])).1 = Some "".
Proof. vm_compute. repeat split. Qed.






(** ** Category and subcategory *)

Lemma is_prefix_app (base rel : path) : is_prefix base (base ++ rel) = true.
Proof.
  induction base as [|b base IH]; simpl; [reflexivity|].
  now rewrite String.eqb_refl, IH.
Qed.

Lemma relative_to_app (base rel : path) : relative_to (base ++ rel) base = Some rel.
Proof.
  unfold relative_to. rewrite is_prefix_app. f_equal.
  induction base as [|b base IH]; simpl; [reflexivity | exact IH].
Qed.

Lemma with_suffix_nonempty (p : path) new q : with_suffix p new = Some q -> p <> [].
Proof. intros H ->. discriminate H. Qed.

(** What [convert_file] writes for a file that has a UID. *)
Lemma convert_file_written source_path output_path total st rel content rel_json :
  uid_truthy (uid (parse_flipper_nfc_file content).1) = true ->
  with_suffix rel ".json" = Some rel_json ->
  written (convert_file source_path output_path total st (rel, Text content))
  = <[output_path ++ rel_json :=
        mkTagDocument (parse_flipper_nfc_file content).1
          (mkMetadata (List.last (source_path ++ rel) "")
             (Str.replace backslash "/" (path_str rel))
             (nth_error rel 0) (nth_error rel 1))]> (written st).
Proof.
  intros Hu Hs. unfold convert_file. cbn [fst snd].
  rewrite Hu. cbn [negb]. rewrite relative_to_app, Hs. cbn [written].
  destruct rel as [|a [|b rel]]; reflexivity.
Qed.

(** C7.  For a converted file the category is the first component of the
    path relative to the source root, which is never absent, and the
    subcategory is the second, absent when there is none: for a file
    directly under the root the category is the file's own name and only
    the subcategory is absent. *)
Theorem categories_are_leading_components
    (source_path output_path : path) (total : nat) (st : conv_state)
    (rel rel_json : path) (content : string) :
  uid_truthy (uid (parse_flipper_nfc_file content).1) = true ->
  with_suffix rel ".json" = Some rel_json ->
  exists doc,
    written (convert_file source_path output_path total st (rel, Text content))
      !! (output_path ++ rel_json) = Some doc /\
    category (doc_metadata doc) = nth_error rel 0 /\
    subcategory (doc_metadata doc) = nth_error rel 1 /\
    category (doc_metadata doc) <> None /\
    (forall name, rel = [name] ->
       category (doc_metadata doc) = Some name /\
       subcategory (doc_metadata doc) = None).
Proof.
  intros Hu Hs. rewrite (convert_file_written _ _ _ _ _ _ _ Hu Hs).
  eexists. split; [apply lookup_insert_eq|]. cbn [doc_metadata category subcategory].
  repeat split.
  - apply with_suffix_nonempty in Hs. now destruct rel.
  - now subst rel.
  - now subst rel.
Qed.

Lemma categories_are_leading_components_witness :
  exists doc,
    written (convert_file ["dumps"] ["out"] 1 start_state
               (["Giants"; "Tree Rex.nfc"], Text sample_dump))
      !! (["out"] ++ ["Giants"; "Tree Rex.json"]) = Some doc /\
    category (doc_metadata doc) = Some "Giants" /\
    subcategory (doc_metadata doc) = Some "Tree Rex.nfc" /\
    category (doc_metadata doc) <> None /\
    (forall name, ["Giants"; "Tree Rex.nfc"] = [name] ->
       category (doc_metadata doc) = Some name /\
       subcategory (doc_metadata doc) = None).
Proof.
  apply (categories_are_leading_components ["dumps"] ["out"] 1 start_state
           ["Giants"; "Tree Rex.nfc"] ["Giants"; "Tree Rex.json"] sample_dump);
    reflexivity.
Defined.

(** A file directly under the source root gets its own name as category:
    the two fields are not both absent. *)
Lemma root_file_has_a_category :
  ~ (forall doc,
       written (convert_file ["dumps"] ["out"] 1 start_state
                  (["Spyro.nfc"], Text sample_dump))
         !! ["out"; "Spyro.json"] = Some doc ->
       category (doc_metadata doc) = None /\ subcategory (doc_metadata doc) = None).
Proof.
  intros H.
  pose proof (convert_file_written ["dumps"] ["out"] 1 start_state ["Spyro.nfc"]
                sample_dump ["Spyro.json"] eq_refl eq_refl) as W.
  change (["out"] ++ ["Spyro.json"]) with ["out"; "Spyro.json"] in W.
  edestruct H as [Hnone _].
  { rewrite W. apply lookup_insert_eq. }
  discriminate Hnone.
Qed.

(** ** Trimming and replacing *)

Lemma tight_cons a s :
  tight (String a s) = match s with
                       | EmptyString => negb (Chr.is_space a)
                       | _ => tight s
                       end.
Proof. destruct s; reflexivity. Qed.

Lemma tight_cat v u : tight v = true -> tight u = true -> tight (Str.cat v u) = true.
Proof.
  intros Hv Hu. destruct u as [|b u]; [now rewrite str_cat_empty_r|].
  clear Hv. induction v as [|a v IH]; [exact Hu|].
  cbn [Str.cat]. rewrite tight_cons.
  destruct (Str.cat v (String b u)) eqn:E; [|exact IH].
  destruct v; discriminate E.
Qed.

Lemma tight_rstrip_id t : tight t = true -> Str.rstrip t = t.
Proof.
  induction t as [|a t IH]; [reflexivity|].
  rewrite tight_cons. cbn [Str.rstrip]. destruct t as [|b t].
  - intros H. simpl. now destruct (Chr.is_space a).
  - intros H. now rewrite (IH H).
Qed.

Lemma rstrip_spaces ws : Str.all Chr.is_space ws = true -> Str.rstrip ws = "".
Proof.
  induction ws as [|a ws IH]; [reflexivity|]. cbn [Str.all Str.rstrip].
  intros [Ha Hws]%andb_prop. now rewrite (IH Hws), Ha.
Qed.

Lemma rstrip_cat_spaces u ws :
  Str.all Chr.is_space ws = true -> Str.rstrip (Str.cat u ws) = Str.rstrip u.
Proof.
  intros Hws. induction u as [|a u IH]; [now apply rstrip_spaces|].
  cbn [Str.cat Str.rstrip]. now rewrite IH.
Qed.

(** A string is its trimmed part followed by white space. *)
Lemma rstrip_decompose s :
  exists ws, s = Str.cat (Str.rstrip s) ws /\ Str.all Chr.is_space ws = true /\
             tight (Str.rstrip s) = true.
Proof.
  induction s as [|a s (ws & E & Hws & Ht)].
  - exists "". auto.
  - cbn [Str.rstrip]. destruct (Str.rstrip s) as [|b t] eqn:R.
    + destruct (Chr.is_space a) eqn:Ha.
      * exists (String a ws). simpl in E. subst s. simpl. now rewrite Ha.
      * exists ws. simpl in E. subst s. simpl. now rewrite Ha.
    + exists ws. repeat split; auto. simpl. simpl in E. now rewrite <- E.
Qed.

Lemma starts_with_length p s :
  Str.starts_with p s = true -> String.length p <= String.length s.
Proof.
  revert s. induction p as [|a p IH]; intros [|b s]; simpl; try lia; try discriminate.
  intros [_ H]%andb_prop. apply IH in H. lia.
Qed.

(** A word that ends in a solid character is no prefix of white space. *)
Lemma no_occurrence_in_spaces p : forall ws,
  Str.all Chr.is_space ws = true -> ends_solid p = true ->
  Str.starts_with p ws = false.
Proof.
  induction p as [|o p IH]; intros ws Hws Hp; [discriminate Hp|].
  destruct ws as [|w ws]; [reflexivity|].
  cbn [Str.all] in Hws. apply andb_prop in Hws as [Hw Hws].
  cbn [Str.starts_with]. destruct p as [|o' p].
  - simpl in Hp. destruct (Ascii.eqb_spec o w) as [->|]; [|reflexivity].
    now rewrite Hw in Hp.
  - rewrite (IH ws Hws Hp). apply andb_false_r.
Qed.

Section ReplaceSolid.

Variables old new : string.
Hypothesis old_starts : starts_solid old = true.
Hypothesis old_ends : ends_solid old = true.
Hypothesis new_starts : starts_solid new = true.
Hypothesis new_ends : ends_solid new = true.

Let R := Str.replace_scan old new.

(** An occurrence of [old] does not start at a white space. *)
Lemma no_occurrence_at_space a s :
  Chr.is_space a = true -> Str.starts_with old (String a s) = false.
Proof.
  intros Ha. destruct old as [|o old']; [discriminate old_starts|].
  simpl in *. destruct (Ascii.eqb_spec o a) as [->|]; [|reflexivity].
  now rewrite Ha in old_starts.
Qed.

(** An occurrence of [old] does not run into trailing white space. *)
Lemma occurrence_within ws p t :
  Str.all Chr.is_space ws = true -> ends_solid p = true ->
  Str.starts_with p (Str.cat t ws) = Str.starts_with p t.
Proof.
  intros Hws. revert t. induction p as [|o p IH]; intros t Hp; [discriminate Hp|].
  destruct t as [|a t].
  - cbn [Str.cat]. now rewrite no_occurrence_in_spaces.
  - cbn [Str.cat Str.starts_with]. destruct p as [|o' p]; [reflexivity|].
    now rewrite IH.
Qed.

Lemma replace_spaces ws :
  Str.all Chr.is_space ws = true -> R 0 ws = ws.
Proof.
  induction ws as [|a ws IH]; [reflexivity|].
  cbn [Str.all]. intros [Ha Hws]%andb_prop. unfold R in *. cbn [Str.replace_scan].
  rewrite (no_occurrence_at_space _ _ Ha). now rewrite IH.
Qed.

Lemma replace_before_spaces ws :
  Str.all Chr.is_space ws = true ->
  forall t k, k <= String.length t -> R k (Str.cat t ws) = Str.cat (R k t) ws.
Proof.
  intros Hws. induction t as [|a t IH]; intros k Hk.
  - simpl in Hk. assert (k = 0) as -> by lia. now apply replace_spaces.
  - unfold R in *. cbn [Str.cat Str.replace_scan]. destruct k as [|k].
    + change (String a (Str.cat t ws)) with (Str.cat (String a t) ws).
      rewrite (occurrence_within _ _ _ Hws old_ends).
      destruct (Str.starts_with old (String a t)) eqn:E.
      * apply starts_with_length in E. simpl in E.
        rewrite IH by lia. now rewrite str_cat_assoc.
      * cbn [Str.cat]. rewrite IH by lia. reflexivity.
    + apply IH. simpl in Hk. lia.
Qed.

Lemma new_tight : tight new = true.
Proof. destruct new; [discriminate new_ends | exact new_ends]. Qed.

Lemma replace_nonempty a t : R 0 (String a t) <> "".
Proof.
  unfold R. cbn [Str.replace_scan].
  destruct (Str.starts_with old (String a t)); [|discriminate].
  destruct new; [discriminate new_starts | discriminate].
Qed.

Lemma replace_tight t : forall k, tight t = true -> tight (R k t) = true.
Proof.
  induction t as [|a t IH]; intros k Ht; [reflexivity|].
  assert (Ht' : tight t = true).
  { rewrite tight_cons in Ht. now destruct t. }
  unfold R in *. cbn [Str.replace_scan]. destruct k as [|k]; [|now apply IH].
  destruct (Str.starts_with old (String a t)).
  - apply tight_cat; [exact new_tight | now apply IH].
  - rewrite tight_cons. destruct t as [|b t]; [exact Ht|].
    destruct (Str.replace_scan old new 0 (String b t)) eqn:E.
    + now destruct (replace_nonempty b t).
    + rewrite <- E. now apply IH.
Qed.

Lemma rstrip_replace s : Str.rstrip (R 0 s) = R 0 (Str.rstrip s).
Proof.
  destruct (rstrip_decompose s) as (ws & E & Hws & Ht).
  rewrite E at 1. rewrite replace_before_spaces by (auto; lia).
  rewrite rstrip_cat_spaces by exact Hws.
  apply tight_rstrip_id. now apply replace_tight.
Qed.

Lemma lstrip_replace s : Str.lstrip (R 0 s) = R 0 (Str.lstrip s).
Proof.
  induction s as [|a s IH]; [reflexivity|].
  cbn [Str.lstrip]. destruct (Chr.is_space a) eqn:Ha.
  - unfold R in *. cbn [Str.replace_scan].
    rewrite (no_occurrence_at_space _ _ Ha). cbn [Str.lstrip].
    now rewrite Ha.
  - unfold R. cbn [Str.replace_scan].
    destruct (Str.starts_with old (String a s)).
    + destruct new as [|n new']; [discriminate new_starts|].
      cbn [Str.cat Str.lstrip]. simpl in new_starts.
      now destruct (Chr.is_space n).
    + cbn [Str.lstrip]. now rewrite Ha.
Qed.

(** Trimming commutes with replacing [old] by [new]. *)
Lemma strip_replace s :
  Str.strip (Str.replace old new s) = Str.replace old new (Str.strip s).
Proof.
  assert (E : forall x, Str.replace old new x = R 0 x).
  { intros x. unfold Str.replace. destruct old; [discriminate old_starts | reflexivity]. }
  rewrite !E. unfold Str.strip. now rewrite lstrip_replace, rstrip_replace.
Qed.

End ReplaceSolid.

(** What replacing and substituting keep. *)
Lemma all_replace_scan p old new s : forall k,
  Str.all p new = true -> Str.all p s = true ->
  Str.all p (Str.replace_scan old new k s) = true.
Proof.
  induction s as [|a s IH]; intros k Hn Hs; [reflexivity|].
  cbn [Str.all] in Hs. apply andb_prop in Hs as [Ha Hs].
  cbn [Str.replace_scan]. destruct k as [|k]; [|now apply IH].
  destruct (Str.starts_with old (String a s)).
  - rewrite str_all_cat, Hn. now apply IH.
  - cbn [Str.all]. rewrite Ha. now apply IH.
Qed.

Lemma all_replace p old new s :
  Str.all p new = true -> Str.all p s = true ->
  Str.all p (Str.replace old new s) = true.
Proof.
  intros Hn Hs. unfold Str.replace. destruct old as [|o old'].
  - induction s as [|a s IH]; [exact Hn|]. cbn [Str.all] in Hs.
    apply andb_prop in Hs as [Ha Hs]. cbn [Str.intersperse].
    rewrite str_all_cat, Hn. cbn [Str.all]. rewrite Ha. now apply IH.
  - now apply all_replace_scan.
Qed.

Lemma all_sub_scan p fl r s : forall k,
  Str.all p s = true -> Str.all p (sub_scan fl r "" k s) = true.
Proof.
  induction s as [|a s IH]; intros k Hs.
  - destruct k; simpl; [|reflexivity]. now destruct (match_here fl r "").
  - cbn [Str.all] in Hs. apply andb_prop in Hs as [Ha Hs].
    destruct k as [|k]; cbn [sub_scan]; [|now apply IH].
    destruct (match_here fl r (String a s)) as [m|].
    + cbn [Str.cat].
      destruct (String.length (consumed (String a s) (m_rest m))).
      * cbn [Str.all]. rewrite Ha. now apply IH.
      * now apply IH.
    + cbn [Str.all]. rewrite Ha. now apply IH.
Qed.

Lemma all_strip_variants p name :
  Str.all p name = true -> Str.all p (strip_variants name) = true.
Proof.
  unfold strip_variants. generalize variants. intros vs. revert name.
  induction vs as [|v vs IH]; intros name H; [exact H|].
  cbn [fold_left]. apply IH. now apply all_replace.
Qed.

(** Replacing a character that does not occur changes nothing. *)
Lemma replace_absent_char c new s :
  Str.all (fun x => negb (Ascii.eqb c x)) s = true ->
  Str.replace (String c "") new s = s.
Proof.
  unfold Str.replace. induction s as [|a s IH]; [reflexivity|].
  cbn [Str.all]. intros [Ha Hs]%andb_prop. cbn [Str.replace_scan Str.starts_with].
  apply negb_true_iff in Ha. rewrite Ha. cbn. now rewrite IH.
Qed.

Lemma separators_absent s :
  Str.all not_separator s = true -> separators_to_spaces s = Str.strip s.
Proof.
  intros H. unfold separators_to_spaces.
  rewrite (replace_absent_char "-" " " s).
  - rewrite (replace_absent_char "_" " " s); [reflexivity|].
    eapply str_all_weaken; [|exact H].
    intros x Hx. unfold not_separator in Hx. now apply andb_prop in Hx as [_ ?].
  - eapply str_all_weaken; [|exact H].
    intros x Hx. unfold not_separator in Hx. now apply andb_prop in Hx as [? _].
Qed.

Lemma strip_collapse_aliases s :
  Str.strip (collapse_aliases s) = collapse_aliases (Str.strip s).
Proof.
  unfold collapse_aliases.
  rewrite strip_replace by reflexivity.
  now rewrite strip_replace by reflexivity.
Qed.

(** For a name without hyphen or underscore the two orders agree. *)
Lemma orders_agree_without_separators name :
  Str.all not_separator name = true ->
  normalize_name name = normalize_name_spec name.
Proof.
  intros H.
  assert (Hy : Str.all not_separator (strip_series (strip_variants name)) = true).
  { unfold strip_series, sub. apply all_sub_scan. now apply all_strip_variants. }
  unfold normalize_name_spec.
  change (normalize_name name) with
    (collapse_aliases
       (separators_to_spaces (strip_series (strip_variants name)))).
  rewrite (separators_absent _ Hy).
  rewrite separators_absent.
  - symmetry. apply strip_collapse_aliases.
  - unfold collapse_aliases. apply all_replace; [reflexivity|].
    apply all_replace; [reflexivity | exact Hy].
Qed.

(** ** The order of the normalizer's steps *)

(** The hyphenated alias is collapsed by the program, since the hyphen
    has become a space by then, and is not in the order of the
    specification. *)
Lemma hyphenated_alias_differs :
  normalize_name "Crash-Bash" = "Bash" /\
  normalize_name_spec "Crash-Bash" = "Crash Bash" /\
  normalize_name "Crash-Bash" <> normalize_name_spec "Crash-Bash".
Proof. vm_compute. repeat split. discriminate. Qed.

(** C8.  [normalize_name] strips the suffix variants first, then turns
    hyphens and underscores into spaces and trims, and collapses the
    aliases last; for a name without hyphen or underscore this gives what
    collapsing the aliases before the separators gives. *)
Theorem normalize_name_order (name : string) :
  normalize_name name =
  collapse_aliases (separators_to_spaces (strip_series (strip_variants name))) /\
  (Str.all not_separator name = true ->
   normalize_name name = normalize_name_spec name).
Proof.
  split; [reflexivity|]. apply orders_agree_without_separators.
Qed.

Lemma normalize_name_order_witness :
  Str.all not_separator " Crash Bash (Legendary) " = true /\
  normalize_name " Crash Bash (Legendary) " = "Bash" /\
  normalize_name_spec " Crash Bash (Legendary) " = "Bash".
Proof.
  split; [reflexivity|]. split; [reflexivity|].
  rewrite <- (proj2 (normalize_name_order " Crash Bash (Legendary) ") eq_refl).
  reflexivity.
Defined.

Example normalize_spyro : normalize_name "Spyro (Legendary)" = "Spyro".
Proof. reflexivity. Qed.

Example normalize_eye_brawl : normalize_name "Eye-Brawl" = "Eye Brawl".
Proof. reflexivity. Qed.

Example normalize_series_five : normalize_name "Zap (series  5) Top" = "Zap".
Proof. reflexivity. Qed.

Example find_bash :
  find_character_data CHARACTER_DATABASE "Crash-Bash (Legendary)"
  = table_get "Bash" CHARACTER_DATABASE.
Proof. reflexivity. Qed.

(** ** Documents that already have a profile *)

Section EnrichFacts.

Variable database : list (string * CharacterProfile).


End EnrichFacts.



(** * Further properties of the parser *)

Lemma upper_filter_hex s :
  Str.all Chr.is_upper_hex (Str.upper (Str.filter Chr.is_hex s)) = true.
Proof.
  unfold Str.upper. eapply str_all_map; [exact upper_hex | apply str_all_filter].
Qed.

(** X1.  Whatever the text, a UID, ATQA or SAK that the record holds is
    made of the characters [[0-9A-F]] alone: no white space, no separator,
    no lower-case letter. *)
Theorem hex_fields_are_upper_hex (content : string) :
  let r := (parse_flipper_nfc_file content).1 in
  when_present (fun u => Str.all Chr.is_upper_hex u = true) (uid r) /\
  when_present (fun a => Str.all Chr.is_upper_hex a = true) (atqa r) /\
  when_present (fun s => Str.all Chr.is_upper_hex s = true) (sak r).
Proof.
  intros r. subst r. unfold parse_flipper_nfc_file. cbn [fst uid atqa sak].
  unfold extract_uid, extract_atqa, extract_sak, keep_hex.
  repeat split.
  - destruct (uid_match content); [|exact I]. simpl.
    rewrite clean_uid_filter. apply upper_filter_hex.
  - destruct (search no_flags atqa_pattern content); [|exact I].
    apply upper_filter_hex.
  - destruct (search no_flags sak_pattern content); [|exact I].
    apply upper_filter_hex.
Qed.

Lemma word_atom x : atom_matches no_flags word x = Chr.is_word x.
Proof. unfold atom_matches. simpl. now rewrite orb_false_r. Qed.

(** X2.  A type label that the record holds is a non-empty run of word
    characters: the search never yields an empty type. *)
Theorem mifare_type_is_a_word (content : string) :
  when_present (fun t => t <> "" /\ Str.all Chr.is_word t = true)
    (mifare_type (parse_flipper_nfc_file content).1).
Proof.
  unfold parse_flipper_nfc_file. cbn [fst mifare_type]. unfold extract_mifare_type.
  destruct (search no_flags mifare_pattern content) as [m|] eqn:E; [|exact I].
  apply search_sound in E as [s0 E].
  apply match_here_sound in E as (w & _ & _ & H).
  unfold mifare_pattern in H. cbn [sequence] in H.
  destruct H as (wa & wb & c1 & _ & Hl & H).
  assert (c1 = []) as -> by (eapply sem_group_free; [|exact Hl]; reflexivity).
  destruct H as (a & t & c2 & _ & (_ & _ & ->) & (c3 & (Hmin & Hall & ->) & Hc)).
  unfold when_present, group_text, group. rewrite Hc.
  cbn [group_of Nat.eqb default from_option id]. split.
  - intros ->. simpl in Hmin. lia.
  - eapply str_all_weaken; [|exact Hall]. intros x Hx. now rewrite word_atom in Hx.
Qed.

Lemma block_loop_lookup ms : forall st n,
  Forall good_match ms ->
  (fold_left block_step ms st).1 !! n =
  match last_with_index n ms with
  | Some b => Some b
  | None => st.1 !! n
  end.
Proof.
  induction ms as [|m ms IH]; intros st n Hms; [reflexivity|].
  apply List.Forall_cons_iff in Hms as [Hm Hms].
  cbn [fold_left last_with_index]. rewrite (IH _ _ Hms).
  destruct (last_with_index n ms); [reflexivity|].
  rewrite (block_step_good _ _ Hm). cbn [fst].
  destruct (N.eqb_spec (Str.int (group_text m 1)) n) as [->|Hne].
  - apply lookup_insert_eq.
  - now apply lookup_insert_ne.
Qed.

(** X3.  The 64 blocks are read off the block lines alone: slot [i] holds
    the cleaned data of the last block match of the text whose index is
    [i], and the 32 zeros when there is none.  A later line for an index
    replaces an earlier one, and a match with an index of 64 or more
    changes no slot. *)
Theorem blocks_are_last_matches (content : string) :
  blocks (parse_flipper_nfc_file content).1 =
  List.map
    (fun i => default "00000000000000000000000000000000"
                (last_with_index (N.of_nat i) (block_matches content)))
    (seq 0 64).
Proof.
  unfold parse_flipper_nfc_file. cbn [fst blocks]. unfold assemble_blocks.
  apply map_ext. intros i. f_equal. unfold scan_blocks.
  rewrite (block_loop_lookup _ _ _ (block_matches_good content)).
  cbn [fst]. rewrite lookup_empty. now destruct (last_with_index _ _).
Qed.

(** Two lines for block 3, and one for block 70. *)
Example later_block_line_wins :
  let r := (parse_flipper_nfc_file
              (unlines ["Block 3: 00 01 02 03 04 05 06 07 08 09 0A 0B 0C 0D 0E 0F";
                        "Block 70: FF FF FF FF FF FF FF FF FF FF FF FF FF FF FF FF";
                        "Block 3: 10 11 12 13 14 15 16 17 18 19 1a 1b 1c 1d 1e 1f"])).1 in
  nth_error (blocks r) 3 = Some "101112131415161718191A1B1C1D1E1F" /\
  List.filter (fun b => negb (String.eqb b empty_block)) (blocks r)
    = ["101112131415161718191A1B1C1D1E1F"].
Proof. vm_compute. split; reflexivity. Qed.

Lemma search_in_suffix fl r pre s :
  match_here fl r s <> None -> search fl r (Str.cat pre s) <> None.
Proof.
  intros H. induction pre as [|a pre IH].
  - cbn [Str.cat]. destruct (match_here fl r s) as [m|] eqn:E; [|easy].
    now rewrite (search_here _ _ _ _ E).
  - cbn [Str.cat search].
    now destruct (match_here fl r (String a (Str.cat pre s))).
Qed.

(** X4.  A text that holds the label [UID:], in any letter case, followed
    by at least one hex digit or white space and then a line end, gives a
    record whose UID is not [None], whatever stands before and after. *)
Theorem labelled_line_gives_uid (pre lab v tail : string) :
  Str.lower lab = "uid:" ->
  v <> "" ->
  Str.all (fun x => Chr.is_hex x || Chr.is_space x) v = true ->
  uid (parse_flipper_nfc_file
         (Str.cat pre (Str.cat lab (Str.cat v (String Chr.newline tail))))).1
  <> None.
Proof.
  intros Hlab Hv Hall.
  unfold parse_flipper_nfc_file. cbn [fst uid]. unfold extract_uid, uid_match.
  assert (Hsem : sem icase_multiline uid_pattern
                   (Str.cat lab (Str.cat v (String Chr.newline ""))) tail
                   [] [(1, v)]).
  { unfold uid_pattern. cbn [sequence].
    exists lab, (Str.cat v (String Chr.newline "")), [].
    split; [reflexivity|]. split; [apply sem_lits, lower_label, Hlab|].
    exists "", (Str.cat v (String Chr.newline "")), [].
    split; [reflexivity|]. split; [repeat split; simpl; lia|].
    exists v, (String Chr.newline ""), [(1, v)].
    split; [reflexivity|]. split.
    - exists []. split; [|reflexivity]. repeat split.
      + destruct v; [easy | simpl; lia].
      + eapply str_all_weaken; [|exact Hall]. intros x Hx.
        now rewrite hex_or_space_atom_icase.
    - left. exists Chr.newline. repeat split. }
  apply match_here_complete in Hsem.
  rewrite !str_cat_assoc in Hsem. cbn [Str.cat] in Hsem.
  apply (search_in_suffix _ _ pre) in Hsem.
  now destruct (search icase_multiline uid_pattern _).
Qed.

Lemma labelled_line_gives_uid_witness :
  Str.lower "Uid:" = "uid:" /\ " 04 a2" <> "" /\
  Str.all (fun x => Chr.is_hex x || Chr.is_space x) " 04 a2" = true /\
  uid (parse_flipper_nfc_file
         (Str.cat "# dump " (Str.cat "Uid:" (Str.cat " 04 a2"
            (String Chr.newline "ATQA: 00 04"))))).1 <> None.
Proof.
  split; [reflexivity|]. split; [discriminate|]. split; [reflexivity|].
  apply (labelled_line_gives_uid "# dump " "Uid:" " 04 a2" "ATQA: 00 04");
    [reflexivity | discriminate | reflexivity].
Defined.

(** ** Lower-casing the text *)

Lemma lower_idem x : Chr.lower (Chr.lower x) = Chr.lower x.
Proof. by_cases_on_char x. Qed.

Lemma space_lower x : Chr.is_space (Chr.lower x) = Chr.is_space x.
Proof. by_cases_on_char x. Qed.

Lemma hex_lower x : Chr.is_hex (Chr.lower x) = Chr.is_hex x.
Proof. by_cases_on_char x. Qed.

Lemma upper_lower x : Chr.upper (Chr.lower x) = Chr.upper x.
Proof. by_cases_on_char x. Qed.

Lemma digit_lower x : Chr.is_digit x = true -> Chr.lower x = x.
Proof. by_cases_on_char x. Qed.

Lemma newline_lower x :
  Ascii.eqb (Chr.lower x) Chr.newline = Ascii.eqb x Chr.newline.
Proof. by_cases_on_char x. Qed.

Lemma length_lower s : String.length (Str.lower s) = String.length s.
Proof. apply str_length_map. Qed.

Lemma take_lower n : forall s, Str.take n (Str.lower s) = Str.lower (Str.take n s).
Proof.
  unfold Str.lower.
  induction n as [|n IH]; intros [|a s]; simpl; try reflexivity.
  f_equal. apply IH.
Qed.

Lemma consumed_lower s s' :
  consumed (Str.lower s) (Str.lower s') = Str.lower (consumed s s').
Proof. unfold consumed. now rewrite !length_lower, take_lower. Qed.

Lemma atom_lower m a x :
  atom_matches (Flags true m) a (Chr.lower x) = atom_matches (Flags true m) a x.
Proof.
  unfold atom_matches. f_equal. induction (items a) as [|it its IH]; [reflexivity|].
  cbn [existsb]. rewrite IH. f_equal.
  unfold item_matches. cbn [ignorecase]. now rewrite lower_idem.
Qed.

Lemma at_end_lower fl s : at_end fl (Str.lower s) = at_end fl s.
Proof.
  destruct s as [|a s]; [reflexivity|]. cbn [Str.lower Str.map at_end].
  rewrite newline_lower. now destruct s.
Qed.

Section LowerFacts.

Variable m : bool.
Let fl := Flags true m.

Lemma atom_lower_fl a x :
  atom_matches fl a (Chr.lower x) = atom_matches fl a x.
Proof. apply atom_lower. Qed.

Lemma repeat_greedy_lower a k k' :
  agree k k' ->
  forall s min c,
    repeat_greedy (atom_matches fl a) min k' (Str.lower s) (lower_caps c)
    = option_map lower_result (repeat_greedy (atom_matches fl a) min k s c).
Proof.
  intros Hk. induction s as [|x s IH]; intros min c.
  - change (Str.lower "") with "". cbn [repeat_greedy].
    destruct min; [exact (Hk "" c) | reflexivity].
  - cbn [Str.lower Str.map repeat_greedy]. rewrite !atom_lower_fl.
    change (Str.map Chr.lower s) with (Str.lower s). rewrite IH.
    assert (Hstop : match min with
                    | 0 => k' (String (Chr.lower x) (Str.lower s)) (lower_caps c)
                    | S _ => None
                    end
                    = option_map lower_result
                        match min with 0 => k (String x s) c | S _ => None end).
    { destruct min; [apply (Hk (String x s)) | reflexivity]. }
    destruct (atom_matches fl a x); [|exact Hstop].
    destruct (repeat_greedy (atom_matches fl a) (Nat.pred min) k s c);
      [reflexivity | exact Hstop].
Qed.

Lemma repeat_lazy_lower a k k' :
  agree k k' ->
  forall s min c,
    repeat_lazy (atom_matches fl a) min k' (Str.lower s) (lower_caps c)
    = option_map lower_result (repeat_lazy (atom_matches fl a) min k s c).
Proof.
  intros Hk. induction s as [|x s IH]; intros min c.
  - change (Str.lower "") with "". cbn [repeat_lazy].
    destruct min; [|reflexivity].
    pose proof (Hk "" c) as E. change (Str.lower "") with "" in E.
    rewrite E. now destruct (k "" c).
  - cbn [Str.lower Str.map repeat_lazy]. rewrite !atom_lower_fl.
    change (Str.map Chr.lower s) with (Str.lower s). rewrite IH.
    assert (Hmore : (if atom_matches fl a x
                     then option_map lower_result
                            (repeat_lazy (atom_matches fl a) (Nat.pred min) k s c)
                     else None)
                    = option_map lower_result
                        (if atom_matches fl a x
                         then repeat_lazy (atom_matches fl a) (Nat.pred min) k s c
                         else None)).
    { now destruct (atom_matches fl a x). }
    destruct min; [|exact Hmore].
    pose proof (Hk (String x s) c) as E.
    change (Str.lower (String x s)) with (String (Chr.lower x) (Str.lower s)) in E.
    rewrite E. destruct (k (String x s) c); [reflexivity|].
    exact Hmore.
Qed.

(** The matcher on the lower-cased text does what it does on the text. *)
Lemma rmatch_lower r : forall k k',
  agree k k' ->
  forall s c,
    rmatch fl r k' (Str.lower s) (lower_caps c)
    = option_map lower_result (rmatch fl r k s c).
Proof.
  induction r as [|a|r1 IH1 r2 IH2|r1 IH1 r2 IH2|g min a|n r1 IH|n r1 IH|];
    intros k k' Hk s c; cbn [rmatch].
  - apply Hk.
  - destruct s as [|x s]; [reflexivity|]. cbn [Str.lower Str.map].
    rewrite atom_lower_fl.
    destruct (atom_matches fl a x); [apply Hk | reflexivity].
  - apply IH1. intros s1 c1. now apply IH2.
  - rewrite (IH1 _ _ Hk), (IH2 _ _ Hk).
    now destruct (rmatch fl r1 k s c).
  - destruct g; [now apply repeat_greedy_lower | now apply repeat_lazy_lower].
  - revert k k' Hk s c. induction n as [|n IHn]; intros k k' Hk s c.
    + apply Hk.
    + apply IH. intros s1 c1. now apply IHn.
  - apply IH. intros s1 c1.
    change ((n, consumed (Str.lower s) (Str.lower s1)) :: lower_caps c1)
      with ((n, consumed (Str.lower s) (Str.lower s1)) :: lower_caps c1).
    rewrite consumed_lower.
    exact (Hk s1 ((n, consumed s s1) :: c1)).
  - rewrite at_end_lower. destruct (at_end fl s); [apply Hk | reflexivity].
Qed.

Lemma match_here_lower r s :
  match_here fl r (Str.lower s) = option_map lower_match (match_here fl r s).
Proof.
  unfold match_here.
  pose proof (rmatch_lower r (fun s' c' => Some (s', c')) (fun s' c' => Some (s', c'))
                (fun _ _ => eq_refl) s []) as E.
  change (lower_caps []) with (@nil (nat * string)) in E. rewrite E.
  now destruct (rmatch fl r _ s []) as [[? ?]|].
Qed.

Lemma search_lower r s :
  search fl r (Str.lower s) = option_map lower_match (search fl r s).
Proof.
  induction s as [|a s IH].
  - pose proof (match_here_lower r "") as E. change (Str.lower "") with "" in *.
    cbn [search]. revert E. now destruct (match_here fl r "").
  - cbn [Str.lower Str.map search].
    change (String (Chr.lower a) (Str.map Chr.lower s)) with (Str.lower (String a s)).
    rewrite match_here_lower.
    destruct (match_here fl r (String a s)); [reflexivity | exact IH].
Qed.

Lemma finditer_scan_lower r s : forall skip,
  finditer_scan fl r skip (Str.lower s)
  = List.map lower_match (finditer_scan fl r skip s).
Proof.
  induction s as [|a s IH]; intros skip.
  - destruct skip; [|reflexivity].
    pose proof (match_here_lower r "") as E. change (Str.lower "") with "" in *.
    cbn [finditer_scan]. revert E.
    destruct (match_here fl r "") as [m0|]; [|reflexivity].
    cbn [option_map List.map]. now intros [= <-].
  - destruct skip as [|skip]; cbn [Str.lower Str.map finditer_scan]; [|apply IH].
    change (String (Chr.lower a) (Str.map Chr.lower s)) with (Str.lower (String a s)).
    rewrite match_here_lower.
    destruct (match_here fl r (String a s)) as [m0|]; [|apply IH].
    cbn [option_map List.map]. f_equal.
    change (m_rest (lower_match m0)) with (Str.lower (m_rest m0)).
    rewrite consumed_lower, length_lower. apply IH.
Qed.

End LowerFacts.

Lemma group_text_lower m n :
  group_text (lower_match m) n = Str.lower (group_text m n).
Proof.
  unfold group_text, group. destruct n as [|n].
  - cbn [default from_option id]. apply consumed_lower.
  - cbn [lower_match m_caps]. induction (m_caps m) as [|[k w] c IH]; [reflexivity|].
    cbn [lower_caps List.map group_of fst snd].
    destruct (Nat.eqb k (S n)); [reflexivity | exact IH].
Qed.

Lemma filter_lower p s :
  (forall x, p (Chr.lower x) = p x) ->
  Str.filter p (Str.lower s) = Str.lower (Str.filter p s).
Proof.
  intros Hp. unfold Str.lower. induction s as [|a s IH]; [reflexivity|].
  cbn [Str.map Str.filter]. rewrite Hp.
  destruct (p a); cbn [Str.map]; now rewrite IH.
Qed.

Lemma upper_of_lower s : Str.upper (Str.lower s) = Str.upper s.
Proof.
  induction s as [|a s IH]; [reflexivity|]. unfold Str.upper, Str.lower in *.
  cbn [Str.map]. now rewrite upper_lower, IH.
Qed.

Lemma lstrip_lower s : Str.lstrip (Str.lower s) = Str.lower (Str.lstrip s).
Proof.
  induction s as [|a s IH]; [reflexivity|].
  cbn [Str.lower Str.map Str.lstrip]. rewrite space_lower.
  destruct (Chr.is_space a); [exact IH | reflexivity].
Qed.

Lemma rstrip_lower s : Str.rstrip (Str.lower s) = Str.lower (Str.rstrip s).
Proof.
  induction s as [|a s IH]; [reflexivity|].
  cbn [Str.lower Str.map Str.rstrip].
  change (Str.map Chr.lower s) with (Str.lower s). rewrite IH, space_lower.
  destruct (Str.rstrip s); [now destruct (Chr.is_space a) | reflexivity].
Qed.

Lemma clean_uid_lower g :
  clean_uid (Str.strip (Str.lower g)) = clean_uid (Str.strip g).
Proof.
  unfold Str.strip. rewrite lstrip_lower, rstrip_lower, !clean_uid_filter.
  rewrite (filter_lower _ _ hex_lower). apply upper_of_lower.
Qed.

Lemma clean_block_lower g : clean_block (Str.lower g) = clean_block g.
Proof.
  rewrite !clean_block_filter. rewrite filter_lower.
  - apply upper_of_lower.
  - intros x. now rewrite space_lower.
Qed.

Lemma lower_digits s : Str.all Chr.is_digit s = true -> Str.lower s = s.
Proof.
  induction s as [|a s IH]; [reflexivity|]. cbn [Str.all].
  intros [Ha Hs]%andb_prop. unfold Str.lower in *. cbn [Str.map].
  now rewrite (digit_lower _ Ha), (IH Hs).
Qed.

Lemma digit_atom_icase x : atom_matches icase_multiline digit x = Chr.is_digit x.
Proof. by_cases_on_char x. Qed.

(** The first group of a block match is a run of digits. *)
Lemma block_match_index s m :
  match_here icase_multiline block_pattern s = Some m ->
  Str.all Chr.is_digit (group_text m 1) = true.
Proof.
  intros H. apply match_here_sound in H as (w & _ & _ & H).
  unfold block_pattern, block_body in H. cbn [sequence lits] in H.
  destruct H as (? & ? & ? & _ & _ & H).
  destruct H as (? & ? & ? & _ & _ & H).
  destruct H as (g1 & ? & ? & _ & (c1 & (_ & Hd & _) & ->) & H).
  destruct H as (? & ? & ? & _ & (? & _ & _ & ->) & H).
  destruct H as (? & g2 & ? & _ & (_ & _ & ->) & H).
  destruct H as (c2 & H2 & E).
  assert (c2 = (1, g1) :: c1) as ->
    by (eapply sem_group_free; [|exact H2]; reflexivity).
  unfold group_text, group. rewrite E. cbn [group_of Nat.eqb default from_option id].
  eapply str_all_weaken; [|exact Hd]. intros z Hz.
  now rewrite digit_atom_icase in Hz.
Qed.

Lemma block_step_lower st m :
  Str.all Chr.is_digit (group_text m 1) = true ->
  block_step st (lower_match m) = block_step st m.
Proof.
  intros Hd. unfold block_step.
  now rewrite !group_text_lower, clean_block_lower, (lower_digits _ Hd).
Qed.

Lemma scan_blocks_lower content :
  scan_blocks (Str.lower content) = scan_blocks content.
Proof.
  unfold scan_blocks, block_matches, finditer, icase_multiline.
  rewrite finditer_scan_lower.
  assert (Hd : Forall (fun m => Str.all Chr.is_digit (group_text m 1) = true)
                 (finditer_scan (Flags true true) block_pattern 0 content)).
  { apply List.Forall_forall. intros m Hm.
    apply finditer_scan_sound in Hm as [s0 Hs0]. exact (block_match_index _ _ Hs0). }
  revert Hd. generalize (finditer_scan (Flags true true) block_pattern 0 content).
  generalize (∅ : gmap N string, [] : list diagnostic).
  intros st ms. revert st. induction ms as [|m ms IH]; intros st Hd; [reflexivity|].
  apply List.Forall_cons_iff in Hd as [Hm Hd].
  cbn [List.map fold_left]. rewrite (block_step_lower _ _ Hm). now apply IH.
Qed.

(** X5.  For a text of code points below 256, the UID and the blocks do
    not depend on the letter case: the text in lower case gives the same
    UID and the same 64 blocks.  (Beyond that range the letter U+0130 is
    read as [I] by the search and is no [i] once in lower case.) *)
Theorem uid_and_blocks_ignore_case (content : string) :
  uid (parse_flipper_nfc_file (Str.lower content)).1
    = uid (parse_flipper_nfc_file content).1 /\
  blocks (parse_flipper_nfc_file (Str.lower content)).1
    = blocks (parse_flipper_nfc_file content).1.
Proof.
  unfold parse_flipper_nfc_file. cbn [fst uid blocks].
  rewrite scan_blocks_lower. split; [|reflexivity].
  unfold extract_uid, uid_match, icase_multiline. rewrite search_lower.
  destruct (search (Flags true true) uid_pattern content) as [m|]; [|reflexivity].
  cbn [option_map]. now rewrite group_text_lower, clean_uid_lower.
Qed.

(** * Further properties of the converter *)

(** A turn in which the write is taken is the turn of [convert_file]. *)
Lemma convert_file_io_ok source_path output_path total st f :
  convert_file_io source_path output_path total (all_written st) (f, WriteOk)
  = all_written (convert_file source_path output_path total st f).
Proof.
  destruct f as [rel [content|msg]]; unfold convert_file_io, convert_file;
    cbn [fst snd]; [|reflexivity].
  destruct (uid_truthy (uid (parse_flipper_nfc_file content).1)); cbn [negb];
    [|reflexivity].
  rewrite relative_to_app.
  destruct (with_suffix rel ".json") as [rel_json|]; [|reflexivity].
  unfold all_written.
  cbn [io_converted io_errors io_disk io_printed
       converted_count errors written printed].
  now rewrite fmap_insert.
Qed.

Lemma convert_loop_io_ok source_path output_path total nfc_files : forall st,
  convert_loop_io source_path output_path total (all_written st)
    (List.map (fun f => (f, WriteOk)) nfc_files)
  = all_written (convert_loop source_path output_path total st nfc_files).
Proof.
  induction nfc_files as [|f fs IH]; intros st; [reflexivity|].
  unfold convert_loop_io, convert_loop in *. cbn [List.map fold_left].
  now rewrite convert_file_io_ok, IH.
Qed.

(** What one turn of the loop does to the counters. *)
Lemma convert_file_io_counters source_path output_path total st f :
  let st' := convert_file_io source_path output_path total st f in
  io_errors st' = io_errors st ++ option_list (conversion_error_io source_path f) /\
  io_converted st' =
    io_converted st +
    match conversion_error_io source_path f with Some _ => 0 | None => 1 end.
Proof.
  destruct f as [[rel [content|msg]] o];
    unfold convert_file_io, conversion_error_io, conversion_error;
    cbn [fst snd].
  - destruct (uid_truthy (uid (parse_flipper_nfc_file content).1)); cbn [negb].
    + rewrite relative_to_app.
      destruct (with_suffix rel ".json"); cbn.
      * destruct o; cbn; rewrite ?app_nil_r; (split; [reflexivity | lia]).
      * split; [reflexivity | lia].
    + cbn. split; [reflexivity | lia].
  - cbn. split; [reflexivity | lia].
Qed.

Lemma convert_loop_io_counters source_path output_path total nfc_files : forall st,
  let st' := convert_loop_io source_path output_path total st nfc_files in
  io_errors st' = io_errors st ++ omap (conversion_error_io source_path) nfc_files /\
  io_converted st' + length (omap (conversion_error_io source_path) nfc_files)
    = io_converted st + length nfc_files.
Proof.
  induction nfc_files as [|f fs IH]; intros st.
  - cbn. rewrite app_nil_r. split; [reflexivity | lia].
  - unfold convert_loop_io. cbn [fold_left].
    destruct (IH (convert_file_io source_path output_path total st f)) as [E C].
    destruct (convert_file_io_counters source_path output_path total st f) as [E1 C1].
    unfold convert_loop_io in E, C. cbv zeta in *.
    split.
    + rewrite E, E1, <- app_assoc. f_equal. cbn [omap list_omap].
      now destruct (conversion_error_io source_path f).
    + rewrite C1 in C. cbn [omap list_omap length].
      destruct (conversion_error_io source_path f); cbn [length] in *; lia.
Qed.



(** A run of three files: one converted, one whose directory cannot be
    made, one without UID. *)
Example one_converted_two_recorded :
  let r := convert_all_nfc_files_io ["dumps"] ["out"] ∅
             [(["Spyro.nfc"], Text sample_dump, WriteOk);
              (["a.json"; "Bash.nfc"], Text sample_dump,
               WriteRefused "[Errno 17] File exists: 'out/a.json'");
              (["Zap.nfc"], Text no_uid_dump, WriteOk)] in
  io_converted r = 1 /\
  io_errors r = [("dumps/a.json/Bash.nfc", "[Errno 17] File exists: 'out/a.json'");
                 ("dumps/Zap.nfc", "Missing UID")].
Proof.
  intros r. subst r. unfold convert_all_nfc_files_io.
  cbn [io_errors io_converted].
  destruct (convert_loop_io_counters ["dumps"] ["out"] 3
              [(["Spyro.nfc"], Text sample_dump, WriteOk);
               (["a.json"; "Bash.nfc"], Text sample_dump,
                WriteRefused "[Errno 17] File exists: 'out/a.json'");
               (["Zap.nfc"], Text no_uid_dump, WriteOk)]
              (mkIoState 0 [] ∅ [Found 3])) as [E C].
  cbv zeta in E, C. cbn [length]. rewrite E. clear E.
  assert (O : omap (conversion_error_io ["dumps"])
                [(["Spyro.nfc"], Text sample_dump, WriteOk);
                 (["a.json"; "Bash.nfc"], Text sample_dump,
                  WriteRefused "[Errno 17] File exists: 'out/a.json'");
                 (["Zap.nfc"], Text no_uid_dump, WriteOk)]
              = [("dumps/a.json/Bash.nfc", "[Errno 17] File exists: 'out/a.json'");
                 ("dumps/Zap.nfc", "Missing UID")]) by (vm_compute; reflexivity).
  rewrite O in *. cbn [length io_converted io_errors app] in *.
  split; [lia | reflexivity].
Qed.





(** ** The name of the output file *)

Lemma rfind_dot_nfc stem : forall i,
  rfind_dot i (Str.cat stem ".nfc") = Some (i + String.length stem).
Proof.
  induction stem as [|a stem IH]; intros i.
  - simpl. f_equal. lia.
  - cbn [Str.cat rfind_dot String.length]. rewrite IH. f_equal. lia.
Qed.

Lemma drop_cat s t : Str.drop (String.length s) (Str.cat s t) = t.
Proof. induction s as [|a s IH]; [now destruct t | exact IH]. Qed.

Lemma suffix_nfc stem :
  suffix (Str.cat stem ".nfc") = match stem with EmptyString => "" | _ => ".nfc" end.
Proof.
  unfold suffix. rewrite rfind_dot_nfc. cbn [Nat.add].
  destruct stem as [|a stem]; [reflexivity|].
  set (name := Str.cat (String a stem) ".nfc").
  assert (E : Nat.ltb 0 (String.length (String a stem))
              && Nat.ltb (String.length (String a stem)) (String.length name - 1)
              = true).
  { apply andb_true_intro. subst name. rewrite str_length_cat.
    split; apply Nat.ltb_lt; simpl; lia. }
  rewrite E. apply drop_cat.
Qed.

Lemma last_snoc {A} (l : list A) (x d : A) : List.last (l ++ [x]) d = x.
Proof. apply last_last. Qed.

Lemma with_suffix_nfc (dir : path) (stem : string) :
  with_suffix (dir ++ [Str.cat stem ".nfc"]) ".json"
  = Some (dir ++ [json_name stem]).
Proof.
  unfold with_suffix. rewrite last_snoc, removelast_last.
  destruct (Str.cat stem ".nfc") as [|a0 t] eqn:E;
    [destruct stem; discriminate E|].
  rewrite <- E, suffix_nfc. f_equal. f_equal. f_equal.
  destruct stem as [|a stem].
  - reflexivity.
  - unfold json_name. f_equal.
    rewrite str_length_cat.
    replace (String.length (String a stem) + String.length ".nfc"
             - String.length ".nfc") with (String.length (String a stem)) by (simpl; lia).
    now rewrite str_take_cat.
Qed.

(** X8.  A dump called [stem.nfc] is written as [stem.json] in the same
    directory, whatever dots the stem holds; the dump called just [.nfc]
    has no suffix to replace and is written as [.nfc.json]. *)
Theorem nfc_becomes_json (dir : path) (stem : string) :
  with_suffix (dir ++ [Str.cat stem ".nfc"]) ".json"
  = Some (dir ++ [json_name stem]) /\
  suffix (Str.cat stem ".nfc")
  = match stem with EmptyString => "" | _ => ".nfc" end.
Proof.
  split; [apply with_suffix_nfc | apply suffix_nfc].
Qed.

Lemma cat_cancel_r s1 s2 t : Str.cat s1 t = Str.cat s2 t -> s1 = s2.
Proof.
  intros E. assert (L : String.length s1 = String.length s2).
  { apply (f_equal String.length) in E. rewrite !str_length_cat in E. lia. }
  now destruct (cat_same_length _ _ _ _ L E).
Qed.

(** X9.  Two dumps with different paths and non-empty stems are written
    to different files: no conversion overwrites another. *)
Theorem output_names_distinct (dir1 dir2 : path) (stem1 stem2 : string) :
  stem1 <> "" -> stem2 <> "" ->
  with_suffix (dir1 ++ [Str.cat stem1 ".nfc"]) ".json"
  = with_suffix (dir2 ++ [Str.cat stem2 ".nfc"]) ".json" ->
  dir1 = dir2 /\ stem1 = stem2.
Proof.
  intros H1 H2. rewrite !with_suffix_nfc. intros [= E].
  apply app_inj_tail in E as [-> E]. split; [reflexivity|].
  destruct stem1; [easy|]. destruct stem2; [easy|].
  exact (cat_cancel_r _ _ _ E).
Qed.

Lemma output_names_distinct_witness :
  "Spyro" <> "" /\ "Spyro" <> "" /\
  (with_suffix (["Core"] ++ [Str.cat "Spyro" ".nfc"]) ".json"
   = with_suffix (["Core"] ++ [Str.cat "Spyro" ".nfc"]) ".json") /\
  ["Core"] = ["Core"] /\ "Spyro" = "Spyro".
Proof.
  split; [discriminate|]. split; [discriminate|]. split; [reflexivity|].
  apply (output_names_distinct ["Core"] ["Core"] "Spyro" "Spyro");
    [discriminate | discriminate | reflexivity].
Defined.

(** The dump without a stem and the dump whose stem is [.nfc] meet. *)
Example stemless_names_collide :
  with_suffix [".nfc"] ".json" = with_suffix [".nfc.nfc"] ".json".
Proof. reflexivity. Qed.

Lemma replace_char_gone c new s :
  Str.all (fun x => negb (Ascii.eqb c x)) new = true ->
  Str.all (fun x => negb (Ascii.eqb c x)) (Str.replace (String c "") new s) = true.
Proof.
  intros Hn. unfold Str.replace. induction s as [|a s IH]; [reflexivity|].
  cbn [Str.replace_scan Str.starts_with String.length Nat.sub].
  destruct (Ascii.eqb c a) eqn:E; cbn [andb].
  - now rewrite str_all_cat, Hn.
  - cbn [Str.all]. now rewrite E.
Qed.

(** X10.  A dump with a UID, and with block indices such as the
    interpreter reads, gets as far as the write, and what is left depends
    on what the write gives.  When it is taken, the document is
    stored whole under the mirrored path, with the record the parser
    gave, the dump's own file name and a relative path that holds no
    backslash, and the dump is counted.  When [mkdir] or [open] raises, no
    file is touched; when [json.dump] raises, the file is left cut short;
    in both cases the dump is not counted and the message of the
    exception is recorded for it. *)
Theorem converted_document
    (source_path output_path : path) (total : nat) (st : io_state)
    (dir : path) (stem content : string) (o : write_result) :
  uid_truthy (uid (parse_flipper_nfc_file content).1) = true ->
  readable_indices content = true ->
  let nfc_file := dir ++ [Str.cat stem ".nfc"] in
  let target := output_path ++ dir ++ [json_name stem] in
  let st' := convert_file_io source_path output_path total st
               (nfc_file, Text content, o) in
  match o with
  | WriteOk =>
      (exists doc,
         io_disk st' = <[target := Whole doc]> (io_disk st) /\
         doc_record doc = (parse_flipper_nfc_file content).1 /\
         original_filename (doc_metadata doc) = Str.cat stem ".nfc" /\
         Str.all not_backslash (original_path (doc_metadata doc)) = true) /\
      io_converted st' = S (io_converted st) /\
      io_errors st' = io_errors st
  | WriteRefused msg =>
      io_disk st' = io_disk st /\
      io_converted st' = io_converted st /\
      io_errors st' = io_errors st ++ [(path_str (source_path ++ nfc_file), msg)]
  | WriteCut msg =>
      io_disk st' = <[target := CutShort]> (io_disk st) /\
      io_converted st' = io_converted st /\
      io_errors st' = io_errors st ++ [(path_str (source_path ++ nfc_file), msg)]
  end.
Proof.
  intros Hu _ nfc_file target st'. subst nfc_file target st'.
  unfold convert_file_io. cbn [fst snd]. rewrite Hu. cbn [negb].
  rewrite relative_to_app, with_suffix_nfc.
  destruct o as [|msg|msg]; cbn [io_exception io_disk io_converted io_errors].
  - split; [|split; reflexivity].
    eexists. split; [reflexivity|].
    cbn [doc_record doc_metadata original_filename original_path].
    repeat split.
    + now rewrite app_assoc, last_snoc.
    + apply replace_char_gone. reflexivity.
  - repeat split.
  - repeat split.
Qed.

Lemma converted_document_witness :
  uid_truthy (uid (parse_flipper_nfc_file sample_dump).1) = true /\
  readable_indices sample_dump = true /\
  let st := mkIoState 0 [] ∅ [] in
  let st' := convert_file_io ["dumps"] ["out"] 1 st
               (["Giants"] ++ [Str.cat "Tree Rex" ".nfc"], Text sample_dump,
                WriteOk) in
  (exists doc,
     io_disk st'
       = <[["out"] ++ ["Giants"] ++ [json_name "Tree Rex"] := Whole doc]> (io_disk st) /\
     doc_record doc = (parse_flipper_nfc_file sample_dump).1 /\
     original_filename (doc_metadata doc) = Str.cat "Tree Rex" ".nfc" /\
     Str.all not_backslash (original_path (doc_metadata doc)) = true) /\
  io_converted st' = S (io_converted st) /\
  io_errors st' = io_errors st.
Proof.
  split; [reflexivity|]. split; [reflexivity|].
  apply (converted_document ["dumps"] ["out"] 1 (mkIoState 0 [] ∅ []) ["Giants"]
           "Tree Rex" sample_dump WriteOk); reflexivity.
Defined.

(** * Further properties of the enricher *)

(** ** The normalized name *)

Lemma all_and p q s :
  Str.all (fun x => p x && q x) s = Str.all p s && Str.all q s.
Proof.
  induction s as [|a s IH]; [reflexivity|]. cbn [Str.all]. rewrite IH.
  destruct (p a), (q a), (Str.all p s); reflexivity.
Qed.

Lemma lstrip_shape s : Str.lstrip s = "" \/ starts_solid (Str.lstrip s) = true.
Proof.
  induction s as [|a s IH]; [now left|]. cbn [Str.lstrip].
  destruct (Chr.is_space a) eqn:E; [exact IH|]. right. simpl. now rewrite E.
Qed.

Lemma lstrip_solid t : t = "" \/ starts_solid t = true -> Str.lstrip t = t.
Proof.
  intros [->|H]; [reflexivity|]. destruct t as [|a t]; [reflexivity|].
  simpl in *. now destruct (Chr.is_space a).
Qed.

Lemma rstrip_keeps_start t :
  t = "" \/ starts_solid t = true ->
  Str.rstrip t = "" \/ starts_solid (Str.rstrip t) = true.
Proof.
  intros [->|H]; [now left|]. destruct t as [|a t]; [now left|]. right.
  cbn [Str.rstrip]. simpl in H.
  destruct (Chr.is_space a) eqn:E; [discriminate H|].
  destruct (Str.rstrip t); simpl; now rewrite E.
Qed.

Lemma strip_idem s : Str.strip (Str.strip s) = Str.strip s.
Proof.
  unfold Str.strip.
  rewrite (lstrip_solid (Str.rstrip (Str.lstrip s))).
  - destruct (rstrip_decompose (Str.lstrip s)) as (_ & _ & _ & Ht).
    now apply tight_rstrip_id.
  - apply rstrip_keeps_start, lstrip_shape.
Qed.

Lemma normalize_name_no_separator name :
  Str.all not_separator (normalize_name name) = true.
Proof.
  change (normalize_name name) with
    (collapse_aliases
       (separators_to_spaces (strip_series (strip_variants name)))).
  generalize (strip_series (strip_variants name)). intros y.
  unfold collapse_aliases. apply all_replace; [reflexivity|].
  apply all_replace; [reflexivity|].
  unfold separators_to_spaces. apply all_strip.
  unfold not_separator. rewrite all_and. apply andb_true_intro. split.
  - apply all_replace; [reflexivity|]. now apply replace_char_gone.
  - now apply replace_char_gone.
Qed.

(** X11.  The normalized name holds no hyphen and no underscore, and no
    white space at either end. *)
Theorem normalized_name_is_clean (name : string) :
  Str.all not_separator (normalize_name name) = true /\
  Str.strip (normalize_name name) = normalize_name name.
Proof.
  split; [apply normalize_name_no_separator|].
  change (normalize_name name) with
    (collapse_aliases
       (separators_to_spaces (strip_series (strip_variants name)))).
  unfold separators_to_spaces.
  rewrite strip_collapse_aliases. now rewrite strip_idem.
Qed.

(** ** The profile matcher *)

Lemma table_get_in {A} key (table : list (string * A)) v :
  table_get key table = Some v -> exists k, In (k, v) table.
Proof.
  induction table as [|[k x] table IH]; [discriminate|]. cbn [table_get].
  destruct (String.eqb k key).
  - intros [= <-]. exists k. now left.
  - intros H. destruct (IH H) as [k' Hk']. exists k'. now right.
Qed.

Lemma partial_match_in normalized items v :
  partial_match normalized items = Some v -> exists k, In (k, v) items.
Proof.
  induction items as [|[k x] items IH]; [discriminate|]. cbn [partial_match].
  destruct (_ || _).
  - intros [= <-]. exists k. now left.
  - intros H. destruct (IH H) as [k' Hk']. exists k'. now right.
Qed.

(** X12.  A profile the matcher returns is one of the table, and an empty
    table gives none: the matcher makes up nothing. *)
Theorem found_profile_is_in_table
    (database : list (string * CharacterProfile)) (character_name : string)
    (profile : CharacterProfile) :
  find_character_data database character_name = Some profile ->
  exists key, In (key, profile) database.
Proof.
  unfold find_character_data.
  destruct (table_get (normalize_name character_name) database) as [v|] eqn:E.
  - intros [= <-]. exact (table_get_in _ _ _ E).
  - apply partial_match_in.
Qed.

Lemma found_profile_is_in_table_witness :
  exists profile,
    find_character_data CHARACTER_DATABASE "Tree Rex (Gnarly)" = Some profile /\
    exists key, In (key, profile) CHARACTER_DATABASE.
Proof.
  destruct (find_character_data CHARACTER_DATABASE "Tree Rex (Gnarly)")
    as [profile|] eqn:E; [|vm_compute in E; discriminate E].
  exists profile. split; [reflexivity|].
  exact (found_profile_is_in_table CHARACTER_DATABASE "Tree Rex (Gnarly)"
           profile E).
Defined.

Lemma contains_empty s : Str.contains "" s = true.
Proof. now destruct s. Qed.

(** X13.  A name that normalizes to the empty string matches the first
    entry of the table, since the empty string is part of every key. *)
Theorem empty_name_matches_first_entry
    (key : string) (value : CharacterProfile)
    (rest : list (string * CharacterProfile)) (character_name : string) :
  normalize_name character_name = "" ->
  table_get "" ((key, value) :: rest) = None ->
  find_character_data ((key, value) :: rest) character_name = Some value.
Proof.
  intros Hn Hg. unfold find_character_data. rewrite Hn, Hg.
  cbn [partial_match]. change (Str.lower "") with "".
  now rewrite contains_empty, orb_true_r.
Qed.

Lemma empty_name_matches_first_entry_witness :
  normalize_name " (Legendary) Top" = "" /\
  match CHARACTER_DATABASE with
  | (key, value) :: rest =>
      table_get "" ((key, value) :: rest) = None /\
      find_character_data ((key, value) :: rest) " (Legendary) Top" = Some value /\
      element value = "Magic"
  | [] => False
  end.
Proof.
  split; [reflexivity|]. unfold CHARACTER_DATABASE.
  split; [reflexivity|]. split; [|reflexivity].
  apply empty_name_matches_first_entry; reflexivity.
Defined.

(** X14.  A table key that holds a hyphen or an underscore is never the
    normalized form of a name, so its entry is out of reach of the exact
    match; the three characters of the table with such a key are not found
    under their own names. *)
Theorem separated_keys_are_never_matched (name key : string) :
  Str.all not_separator key = false ->
  normalize_name name <> key /\
  find_character_data CHARACTER_DATABASE "Chop-Chop" = None /\
  find_character_data CHARACTER_DATABASE "Dino-Rang" = None /\
  find_character_data CHARACTER_DATABASE "Eye-Brawl" = None.
Proof.
  intros Hk. split; [|vm_compute; repeat split].
  intros E. rewrite <- E, normalize_name_no_separator in Hk. discriminate Hk.
Qed.

Lemma separated_keys_are_never_matched_witness :
  Str.all not_separator "Eye-Brawl" = false /\
  normalize_name "Eye-Brawl" <> "Eye-Brawl".
Proof.
  split; [reflexivity|].
  exact (proj1 (separated_keys_are_never_matched "Eye-Brawl" "Eye-Brawl" eq_refl)).
Defined.

(** ** Enriching a file *)

Lemma table_get_dict_set_eq key v kvs :
  table_get key (dict_set key v kvs) = Some v.
Proof.
  induction kvs as [|[k x] kvs IH]; cbn [dict_set table_get].
  - now rewrite String.eqb_refl.
  - destruct (String.eqb k key) eqn:E; cbn [table_get]; now rewrite E.
Qed.

Lemma table_get_dict_set_ne key key' v kvs :
  key <> key' -> table_get key' (dict_set key v kvs) = table_get key' kvs.
Proof.
  intros Hne. induction kvs as [|[k x] kvs IH]; cbn [dict_set table_get].
  - destruct (String.eqb_spec key key'); [contradiction | reflexivity].
  - destruct (String.eqb_spec k key) as [->|]; cbn [table_get].
    + destruct (String.eqb_spec key key'); [contradiction | reflexivity].
    + destruct (String.eqb k key'); [reflexivity | exact IH].
Qed.

(** Writing back the value a key holds changes nothing. *)
Lemma dict_set_same key v kvs :
  table_get key kvs = Some v -> dict_set key v kvs = kvs.
Proof.
  induction kvs as [|[k x] kvs IH]; [discriminate|]. cbn [table_get dict_set].
  destruct (String.eqb k key).
  - now intros [= ->].
  - intros H. now rewrite (IH H).
Qed.

Section EnrichMore.

Variable database : list (string * CharacterProfile).

(** What the body of the [try] block does to the files. *)
Lemma enrich_body_files file_path interactive w :
  match enrich_body database file_path interactive w with
  | inl (_, w') => files w' = files w
  | inr (b, w') =>
      if b then exists data, files w' = <[file_path := Document data]> (files w)
      else files w' = files w
  end.
Proof.
  unfold enrich_body, bind, load.
  destruct (files w !! file_path) as [[data|]|]; try reflexivity.
  destruct data as [| | | | | |fields]; try reflexivity.
  destruct (default (JObj []) (table_get "metadata" fields))
    as [| | | | | |metadata]; try reflexivity.
  destruct (default (JStr "") (table_get "original_filename" metadata))
    as [| | | |filename| |]; try reflexivity.
  destruct (get_truthy "element" metadata && get_truthy "biography" metadata);
    [reflexivity|].
  destruct (find_character_data database _) as [char_data|].
  - cbn. eexists. reflexivity.
  - destruct interactive; [|reflexivity].
    unfold say, input_strip, print, dump, ret. cbn.
    destruct (stdin w) as [|l1 [|l2 [|l3 [|l4 rest]]]]; cbn; try reflexivity.
    eexists. reflexivity.
Qed.

(** The call with what its write gives, from the call whose write is
    taken: the write is the last step, so a write that raises turns
    [True] into [False], prints the exception and leaves the file
    untouched or cut short. *)
Lemma enrich_json_file_io_run file_path interactive o w :
  enrich_json_file_io database file_path interactive o w =
  let r := enrich_json_file database file_path interactive w in
  if r.1 then
    match o with
    | WriteOk => r
    | WriteRefused msg =>
        (false, mkWorld (files w) (stdin r.2)
                  (stdout r.2 ++ [ErrorProcessing file_path (WriteException msg)]))
    | WriteCut msg =>
        (false, mkWorld (<[file_path := Malformed]> (files w)) (stdin r.2)
                  (stdout r.2 ++ [ErrorProcessing file_path (WriteException msg)]))
    end
  else r.
Proof.
  unfold enrich_json_file_io, enrich_json_file, enrich_body_io, enrich_body,
    bind, load.
  destruct (files w !! file_path) as [[data|]|]; try reflexivity.
  destruct data as [| | | | | |fields]; try reflexivity.
  destruct (default (JObj []) (table_get "metadata" fields))
    as [| | | | | |metadata]; try reflexivity.
  destruct (default (JStr "") (table_get "original_filename" metadata))
    as [| | | |filename| |]; try reflexivity.
  destruct (get_truthy "element" metadata && get_truthy "biography" metadata);
    [reflexivity|].
  destruct (find_character_data database _) as [char_data|].
  - destruct o; reflexivity.
  - destruct interactive; [|reflexivity].
    unfold say, input_strip, print, dump, dump_io, ret. cbn.
    destruct (stdin w) as [|l1 [|l2 [|l3 [|l4 rest]]]]; cbn; try reflexivity.
    destruct o; reflexivity.
Qed.

(** A call whose write is taken is the call of [enrich_json_file]. *)
Lemma enrich_json_file_io_ok file_path interactive w :
  enrich_json_file_io database file_path interactive WriteOk w
  = enrich_json_file database file_path interactive w.
Proof.
  rewrite enrich_json_file_io_run. cbv zeta.
  now destruct (enrich_json_file database file_path interactive w).1.
Qed.

Lemma last_line (l : list status) (x : status) : last (l ++ [x]) = Some x.
Proof.
  induction l as [|a l IH]; [reflexivity|].
  cbn [app]. destruct (l ++ [x]) eqn:E; [now destruct l | exact IH].
Qed.

(** A call that would return [True] returns [False] when its write
    raises. *)
Lemma enrich_write_fails file_path interactive o w :
  (enrich_json_file database file_path interactive w).1 = true ->
  o <> WriteOk ->
  failed_write file_path o w
    (enrich_json_file_io database file_path interactive o w).
Proof.
  intros R Ho. rewrite enrich_json_file_io_run. cbv zeta. rewrite R.
  destruct o as [|msg|msg]; [easy| |]; cbn [failed_write fst snd files stdout];
    repeat split; apply last_line.
Qed.

(** X15.  [enrich_json_file] touches no file but its own.  When it
    returns [True] the file holds the document written.  When it returns
    [False] - the file was skipped or unmatched, or an exception was
    raised - every file holds what it held, but for one case: [json.dump]
    raised after the file was opened for writing, and the file is left
    cut short. *)
Theorem enrich_touches_own_file_only
    (file_path : string) (interactive : bool) (o : write_result) (w : world) :
  let r := enrich_json_file_io database file_path interactive o w in
  (forall other, other <> file_path -> files r.2 !! other = files w !! other) /\
  if r.1 then exists data, files r.2 = <[file_path := Document data]> (files w)
  else files r.2 = files w \/
       (exists msg, o = WriteCut msg) /\
       files r.2 = <[file_path := Malformed]> (files w).
Proof.
  intros r. subst r. rewrite enrich_json_file_io_run. cbv zeta.
  unfold enrich_json_file.
  pose proof (enrich_body_files file_path interactive w) as H.
  destruct (enrich_body database file_path interactive w) as [[e w']|[b w']];
    cbn [fst snd print files].
  - split; [intros other _; now rewrite H | now left].
  - destruct b; cbn [fst snd files].
    + destruct H as [data H].
      destruct o as [|msg|msg]; cbn [fst snd files].
      * split; [|now exists data].
        intros other Ho. rewrite H. now apply lookup_insert_ne.
      * split; [reflexivity | now left].
      * split; [|right; split; [now exists msg | reflexivity]].
        intros other Ho. now apply lookup_insert_ne.
    + split; [intros other _; now rewrite H | now left].
Qed.

(** What the call whose write is taken does with a document that the
    table matches. *)
Lemma matched_document_written
    (file_path : string) (interactive : bool) (w : world)
    (fields metadata : list (string * json)) (filename : string)
    (profile : CharacterProfile) :
  files w !! file_path = Some (Document (JObj fields)) ->
  table_get "metadata" fields = Some (JObj metadata) ->
  default (JStr "") (table_get "original_filename" metadata) = JStr filename ->
  get_truthy "element" metadata && get_truthy "biography" metadata = false ->
  find_character_data database (Str.replace ".nfc" "" filename) = Some profile ->
  let r := enrich_json_file database file_path interactive w in
  r.1 = true /\
  exists fields' metadata',
    files r.2 = <[file_path := Document (JObj fields')]> (files w) /\
    table_get "metadata" fields' = Some (JObj metadata') /\
    (forall key, key <> "metadata" -> table_get key fields' = table_get key fields) /\
    table_get "element" metadata' = Some (JStr (element profile)) /\
    table_get "biography" metadata' = Some (JStr (biography profile)) /\
    table_get "abilities" metadata'
      = Some (JArr (List.map JStr (abilities profile))) /\
    table_get "character_type" metadata' = Some (JStr (character_type profile)) /\
    (forall key, key <> "element" -> key <> "biography" -> key <> "abilities" ->
       key <> "character_type" ->
       table_get key metadata' = table_get key metadata).
Proof.
  intros Hf Hm Hn He Hp r. subst r.
  unfold enrich_json_file, enrich_body, bind, load.
  rewrite Hf, Hm. cbn [from_option].
  change (id (JObj metadata)) with (JObj metadata). cbv iota.
  rewrite Hn, He, Hp. cbn. split; [reflexivity|].
  eexists _, _. split; [reflexivity|].
  split; [apply table_get_dict_set_eq|].
  split; [intros key Hk; apply table_get_dict_set_ne; congruence|].
  repeat split.
  - now rewrite !table_get_dict_set_ne, table_get_dict_set_eq by discriminate.
  - now rewrite !table_get_dict_set_ne, table_get_dict_set_eq by discriminate.
  - now rewrite !table_get_dict_set_ne, table_get_dict_set_eq by discriminate.
  - apply table_get_dict_set_eq.
  - intros key H1 H2 H3 H4.
    rewrite !table_get_dict_set_ne; congruence.
Qed.

(** X16.  A document with a metadata object and a file name that the
    table matches: when the write is taken, it is written back with the
    four profile fields set in its metadata, the other keys of the
    metadata and of the document keep their values, and the call returns
    [True]; when the write raises, the call returns [False], prints the
    exception, and the file is untouched or cut short. *)
Theorem matched_document_gets_profile
    (file_path : string) (interactive : bool) (o : write_result) (w : world)
    (fields metadata : list (string * json)) (filename : string)
    (profile : CharacterProfile) :
  files w !! file_path = Some (Document (JObj fields)) ->
  table_get "metadata" fields = Some (JObj metadata) ->
  default (JStr "") (table_get "original_filename" metadata) = JStr filename ->
  get_truthy "element" metadata && get_truthy "biography" metadata = false ->
  find_character_data database (Str.replace ".nfc" "" filename) = Some profile ->
  let r := enrich_json_file_io database file_path interactive o w in
  match o with
  | WriteOk =>
      r.1 = true /\
      exists fields' metadata',
        files r.2 = <[file_path := Document (JObj fields')]> (files w) /\
        table_get "metadata" fields' = Some (JObj metadata') /\
        (forall key, key <> "metadata" ->
           table_get key fields' = table_get key fields) /\
        table_get "element" metadata' = Some (JStr (element profile)) /\
        table_get "biography" metadata' = Some (JStr (biography profile)) /\
        table_get "abilities" metadata'
          = Some (JArr (List.map JStr (abilities profile))) /\
        table_get "character_type" metadata'
          = Some (JStr (character_type profile)) /\
        (forall key, key <> "element" -> key <> "biography" ->
           key <> "abilities" -> key <> "character_type" ->
           table_get key metadata' = table_get key metadata)
  | _ => failed_write file_path o w r
  end.
Proof.
  intros Hf Hm Hn He Hp r. subst r.
  pose proof (matched_document_written file_path interactive w fields metadata
                filename profile Hf Hm Hn He Hp) as H. cbv zeta in H.
  destruct o as [|msg|msg].
  - rewrite enrich_json_file_io_run. cbv zeta. rewrite (proj1 H). exact H.
  - apply enrich_write_fails; [exact (proj1 H) | discriminate].
  - apply enrich_write_fails; [exact (proj1 H) | discriminate].
Qed.

End EnrichMore.

Lemma matched_document_gets_profile_witness :
  let w := mkWorld {["Spyro.json" := Document plain_spyro]} [] [] in
  let r := enrich_json_file_io CHARACTER_DATABASE "Spyro.json" false WriteOk w in
  r.1 = true /\
  exists fields' metadata',
    files r.2 = <["Spyro.json" := Document (JObj fields')]> (files w) /\
    table_get "metadata" fields' = Some (JObj metadata') /\
    table_get "uid" fields' = Some (JStr "04A2B3") /\
    table_get "element" metadata' = Some (JStr "Magic") /\
    table_get "character_type" metadata' = Some (JStr "Core") /\
    table_get "category" metadata' = Some (JStr "Core").
Proof.
  intros w r.
  destruct (find_character_data CHARACTER_DATABASE
              (Str.replace ".nfc" "" "Spyro (Legendary).nfc")) as [profile|] eqn:E;
    [|vm_compute in E; discriminate E].
  destruct (matched_document_gets_profile CHARACTER_DATABASE "Spyro.json" false
              WriteOk w
              [("uid", JStr "04A2B3");
               ("metadata", JObj [("original_filename", JStr "Spyro (Legendary).nfc");
                                  ("category", JStr "Core")])]
              [("original_filename", JStr "Spyro (Legendary).nfc");
               ("category", JStr "Core")]
              "Spyro (Legendary).nfc" profile
              eq_refl eq_refl eq_refl eq_refl E)
    as (R1 & fields' & metadata' & Hw & Hm & Hfields & He & _ & _ & Ht & Hkeep).
  split; [exact R1|]. exists fields', metadata'.
  split; [exact Hw|]. split; [exact Hm|].
  split; [rewrite Hfields by discriminate; reflexivity|].
  vm_compute in E. injection E as <-.
  split; [exact He|]. split; [exact Ht|].
  rewrite Hkeep by discriminate. reflexivity.
Defined.

(** The result for a document that already has its profile. *)
Lemma enrich_skips database file_path interactive w fields metadata filename :
  files w !! file_path = Some (Document (JObj fields)) ->
  table_get "metadata" fields = Some (JObj metadata) ->
  default (JStr "") (table_get "original_filename" metadata) = JStr filename ->
  get_truthy "element" metadata && get_truthy "biography" metadata = true ->
  enrich_json_file database file_path interactive w
  = (false, print w (AlreadyHasProfile (Str.replace ".nfc" "" filename))).
Proof.
  intros Hf Hm Hn He.
  unfold enrich_json_file, enrich_body, bind, load.
  rewrite Hf, Hm. cbn [from_option].
  change (id (JObj metadata)) with (JObj metadata). cbv iota.
  now rewrite Hn, He.
Qed.

(** X17.  Enriching twice is enriching once: after a document got a
    profile with a non-empty element and biography, a second call returns
    [False], reports the document as already having its profile and
    leaves the files as the first call left them. *)
Theorem second_run_skips
    (database : list (string * CharacterProfile))
    (file_path : string) (interactive interactive' : bool) (w : world)
    (fields metadata : list (string * json)) (filename : string)
    (profile : CharacterProfile) :
  files w !! file_path = Some (Document (JObj fields)) ->
  table_get "metadata" fields = Some (JObj metadata) ->
  default (JStr "") (table_get "original_filename" metadata) = JStr filename ->
  get_truthy "element" metadata && get_truthy "biography" metadata = false ->
  find_character_data database (Str.replace ".nfc" "" filename) = Some profile ->
  element profile <> "" -> biography profile <> "" ->
  let r1 := enrich_json_file database file_path interactive w in
  let r2 := enrich_json_file database file_path interactive' r1.2 in
  r1.1 = true /\ r2.1 = false /\ files r2.2 = files r1.2 /\
  stdout r2.2 = stdout r1.2 ++ [AlreadyHasProfile (Str.replace ".nfc" "" filename)].
Proof.
  intros Hf Hm Hn He Hp Hel Hbio r1.
  set (m4 := dict_set "character_type" (JStr (character_type profile))
               (dict_set "abilities" (JArr (List.map JStr (abilities profile)))
                  (dict_set "biography" (JStr (biography profile))
                     (dict_set "element" (JStr (element profile)) metadata)))).
  assert (E1 : r1 = (true,
                     mkWorld (<[file_path :=
                                  Document (JObj (dict_set "metadata" (JObj m4) fields))]>
                                (files w))
                       (stdin w)
                       (stdout w ++ [Enriched (Str.replace ".nfc" "" filename)
                                       (element profile)]))).
  { subst r1. unfold enrich_json_file, enrich_body, bind, load.
    rewrite Hf, Hm. cbn [from_option].
    change (id (JObj metadata)) with (JObj metadata). cbv iota.
    now rewrite Hn, He, Hp. }
  intros r2. subst r2. rewrite E1. cbn [fst snd].
  rewrite (enrich_skips database file_path interactive' _
             (dict_set "metadata" (JObj m4) fields) m4 filename).
  - cbn. repeat split.
  - cbn [files]. apply lookup_insert_eq.
  - apply table_get_dict_set_eq.
  - subst m4. now rewrite !table_get_dict_set_ne by discriminate.
  - unfold get_truthy. subst m4.
    rewrite !table_get_dict_set_ne, table_get_dict_set_eq by discriminate.
    rewrite (table_get_dict_set_ne "character_type" "biography") by discriminate.
    rewrite (table_get_dict_set_ne "abilities" "biography") by discriminate.
    rewrite table_get_dict_set_eq. cbn [truthy].
    destruct (element profile); [easy|]. destruct (biography profile); easy.
Qed.

Lemma second_run_skips_witness :
  let w := mkWorld {["Spyro.json" := Document plain_spyro]} [] [] in
  let r1 := enrich_json_file CHARACTER_DATABASE "Spyro.json" false w in
  let r2 := enrich_json_file CHARACTER_DATABASE "Spyro.json" true r1.2 in
  r1.1 = true /\ r2.1 = false /\ files r2.2 = files r1.2 /\
  stdout r2.2 = stdout r1.2
                ++ [AlreadyHasProfile (Str.replace ".nfc" "" "Spyro (Legendary).nfc")].
Proof.
  intros w.
  destruct (find_character_data CHARACTER_DATABASE
              (Str.replace ".nfc" "" "Spyro (Legendary).nfc")) as [profile|] eqn:E;
    [|vm_compute in E; discriminate E].
  apply (second_run_skips CHARACTER_DATABASE "Spyro.json" false true w
           [("uid", JStr "04A2B3");
            ("metadata", JObj [("original_filename", JStr "Spyro (Legendary).nfc");
                               ("category", JStr "Core")])]
           [("original_filename", JStr "Spyro (Legendary).nfc");
            ("category", JStr "Core")]
           "Spyro (Legendary).nfc" profile eq_refl eq_refl eq_refl eq_refl E);
    vm_compute in E; injection E as <-; discriminate.
Defined.

(** What the call whose write is taken does with a document without a
    [metadata] key. *)
Lemma bare_document_written
    (key : string) (value : CharacterProfile)
    (rest : list (string * CharacterProfile))
    (file_path : string) (interactive : bool) (w : world)
    (fields : list (string * json)) :
  files w !! file_path = Some (Document (JObj fields)) ->
  table_get "metadata" fields = None ->
  table_get "" ((key, value) :: rest) = None ->
  let r := enrich_json_file ((key, value) :: rest) file_path interactive w in
  r.1 = true /\ files r.2 = files w /\ stdin r.2 = stdin w /\
  stdout r.2 = stdout w ++ [Enriched "" (element value)].
Proof.
  intros Hf Hm Hg r. subst r.
  assert (Hfind : find_character_data ((key, value) :: rest) "" = Some value).
  { unfold find_character_data.
    change (normalize_name "") with "". rewrite Hg.
    cbn [partial_match]. change (Str.lower "") with "".
    now rewrite contains_empty, orb_true_r. }
  unfold enrich_json_file, enrich_body, bind, load.
  rewrite Hf, Hm. cbn [from_option id table_get]. cbv iota.
  change (Str.replace ".nfc" "" "") with "".
  cbn [get_truthy table_get andb]. rewrite Hfind. cbn.
  repeat split. now apply insert_id.
Qed.

(** X18.  A document without a [metadata] key has an empty name, which
    the first profile of the table matches.  When the write is taken the
    call returns [True] and reports the profile, yet the profile went to
    an object the document does not hold and the file is written back as
    it was; when the write raises, the call returns [False], prints the
    exception, and the file is untouched or cut short. *)
Theorem document_without_metadata
    (key : string) (value : CharacterProfile)
    (rest : list (string * CharacterProfile))
    (file_path : string) (interactive : bool) (o : write_result) (w : world)
    (fields : list (string * json)) :
  files w !! file_path = Some (Document (JObj fields)) ->
  table_get "metadata" fields = None ->
  table_get "" ((key, value) :: rest) = None ->
  let r := enrich_json_file_io ((key, value) :: rest) file_path interactive o w in
  match o with
  | WriteOk =>
      r.1 = true /\ files r.2 = files w /\ stdin r.2 = stdin w /\
      stdout r.2 = stdout w ++ [Enriched "" (element value)]
  | _ => failed_write file_path o w r
  end.
Proof.
  intros Hf Hm Hg r. subst r.
  pose proof (bare_document_written key value rest file_path interactive w
                fields Hf Hm Hg) as H. cbv zeta in H.
  destruct o as [|msg|msg].
  - rewrite enrich_json_file_io_run. cbv zeta. rewrite (proj1 H). exact H.
  - apply enrich_write_fails; [exact (proj1 H) | discriminate].
  - apply enrich_write_fails; [exact (proj1 H) | discriminate].
Qed.

Lemma document_without_metadata_witness :
  let w := mkWorld {["bare.json" := Document bare_document]} [] [] in
  match CHARACTER_DATABASE with
  | (key, value) :: rest =>
      let r := enrich_json_file_io ((key, value) :: rest) "bare.json" false WriteOk w in
      r.1 = true /\ files r.2 = files w /\ stdin r.2 = stdin w /\
      stdout r.2 = stdout w ++ [Enriched "" (element value)]
  | [] => False
  end.
Proof.
  intros w. unfold CHARACTER_DATABASE.
  apply (document_without_metadata _ _ _ "bare.json" false WriteOk w
           [("uid", JStr "04A2B3")]); reflexivity.
Defined.

(** What the call whose write is taken does when the four answers are
    empty. *)
Lemma empty_answers_written
    (database : list (string * CharacterProfile))
    (file_path : string) (w : world)
    (fields metadata : list (string * json)) (filename : string)
    (l1 l2 l3 l4 : string) (rest : list string) :
  files w !! file_path = Some (Document (JObj fields)) ->
  table_get "metadata" fields = Some (JObj metadata) ->
  default (JStr "") (table_get "original_filename" metadata) = JStr filename ->
  get_truthy "element" metadata && get_truthy "biography" metadata = false ->
  find_character_data database (Str.replace ".nfc" "" filename) = None ->
  stdin w = l1 :: l2 :: l3 :: l4 :: rest ->
  Str.strip l1 = "" -> Str.strip l2 = "" -> Str.strip l3 = "" -> Str.strip l4 = "" ->
  let r := enrich_json_file database file_path true w in
  r.1 = true /\ files r.2 = files w /\ stdin r.2 = rest.
Proof.
  intros Hf Hm Hn He Hp Hin H1 H2 H3 H4 r. subst r.
  unfold enrich_json_file, enrich_body, bind, load.
  rewrite Hf, Hm. cbn [from_option].
  change (id (JObj metadata)) with (JObj metadata). cbv iota.
  rewrite Hn, He, Hp.
  unfold say, input_strip, print, dump, ret. cbn. rewrite Hin. cbn.
  rewrite H1, H2, H3, H4. cbn. repeat split.
  rewrite (dict_set_same _ _ _ Hm). now apply insert_id.
Qed.

(** X19.  In interactive mode, when the table has no match and the
    operator leaves the four answers empty, nothing is set.  When the
    write is taken the file is written back as it was and yet the call
    returns [True]; when the write raises, the call returns [False],
    prints the exception, and the file is untouched or cut short. *)
Theorem empty_answers_change_nothing
    (database : list (string * CharacterProfile))
    (file_path : string) (o : write_result) (w : world)
    (fields metadata : list (string * json)) (filename : string)
    (l1 l2 l3 l4 : string) (rest : list string) :
  files w !! file_path = Some (Document (JObj fields)) ->
  table_get "metadata" fields = Some (JObj metadata) ->
  default (JStr "") (table_get "original_filename" metadata) = JStr filename ->
  get_truthy "element" metadata && get_truthy "biography" metadata = false ->
  find_character_data database (Str.replace ".nfc" "" filename) = None ->
  stdin w = l1 :: l2 :: l3 :: l4 :: rest ->
  Str.strip l1 = "" -> Str.strip l2 = "" -> Str.strip l3 = "" -> Str.strip l4 = "" ->
  let r := enrich_json_file_io database file_path true o w in
  match o with
  | WriteOk =>
      r.1 = true /\ files r.2 = files w /\ stdin r.2 = rest
  | _ => failed_write file_path o w r
  end.
Proof.
  intros Hf Hm Hn He Hp Hin H1 H2 H3 H4 r. subst r.
  pose proof (empty_answers_written database file_path w fields metadata filename l1 l2 l3 l4 rest
                Hf Hm Hn He Hp Hin H1 H2 H3 H4) as H. cbv zeta in H.
  destruct o as [|msg|msg].
  - rewrite enrich_json_file_io_run. cbv zeta. rewrite (proj1 H). exact H.
  - apply enrich_write_fails; [exact (proj1 H) | discriminate].
  - apply enrich_write_fails; [exact (proj1 H) | discriminate].
Qed.

Lemma empty_answers_change_nothing_witness :
  let w := mkWorld {["q.json" := Document unknown_document]}
             [""; "  "; ""; " "; "next"] [] in
  let r := enrich_json_file_io CHARACTER_DATABASE "q.json" true WriteOk w in
  r.1 = true /\ files r.2 = files w /\ stdin r.2 = ["next"].
Proof.
  intros w.
  apply (empty_answers_change_nothing CHARACTER_DATABASE "q.json" WriteOk w
           [("uid", JStr "04A2B3");
            ("metadata", JObj [("original_filename", JStr "Qwxz.nfc")])]
           [("original_filename", JStr "Qwxz.nfc")] "Qwxz.nfc"
           "" "  " "" " " ["next"]); reflexivity.
Defined.

(** ** The loop over the files *)

Lemma enrich_all_step database interactive json_files : forall n w,
  fold_left
    (fun st file_path =>
       let r := enrich_json_file database file_path interactive st.2 in
       (if r.1 then S st.1 else st.1, r.2))
    json_files (n, w)
  = ((enrich_all database json_files interactive w).1 + n,
     (enrich_all database json_files interactive w).2).
Proof.
  unfold enrich_all.
  induction json_files as [|f fs IH]; intros n w; [reflexivity|].
  cbn [fold_left fst snd].
  set (r := enrich_json_file database f interactive w).
  rewrite (IH (if r.1 then S n else n) r.2), (IH (if r.1 then 1 else 0) r.2).
  cbn [fst snd]. f_equal. destruct r.1; lia.
Qed.

(** X20.  The loop counts at most one for each file, and leaves alone
    every file that is not in its list. *)
Theorem enrich_all_bounded
    (database : list (string * CharacterProfile))
    (json_files : list string) (interactive : bool) (w : world) (other : string) :
  ~ In other json_files ->
  (enrich_all database json_files interactive w).1 <= length json_files /\
  files (enrich_all database json_files interactive w).2 !! other
  = files w !! other.
Proof.
  revert w. induction json_files as [|f fs IH]; intros w Hnot.
  - split; [cbn; lia | reflexivity].
  - assert (Hf : f <> other) by (intros ->; apply Hnot; now left).
    assert (Hfs : ~ In other fs) by (intros H; apply Hnot; now right).
    unfold enrich_all. cbn [fold_left fst snd].
    rewrite enrich_all_step. cbn [fst snd].
    destruct (IH (enrich_json_file database f interactive w).2 Hfs) as [Hc Hk].
    split.
    + cbn [length]. destruct (enrich_json_file database f interactive w).1; lia.
    + rewrite Hk.
      pose proof (enrich_body_files database f interactive w) as H.
      unfold enrich_json_file.
      destruct (enrich_body database f interactive w) as [[e w']|[b w']];
        cbn [fst snd print files].
      * now rewrite H.
      * destruct b; [|now rewrite H].
        destruct H as [data ->]. now apply lookup_insert_ne.
Qed.

Lemma enrich_all_bounded_witness :
  let w := mkWorld {["Spyro.json" := Document plain_spyro;
                     "bare.json" := Document bare_document]} [] [] in
  ~ In "bare.json" ["Spyro.json"; "gone.json"] /\
  (enrich_all CHARACTER_DATABASE ["Spyro.json"; "gone.json"] false w).1 <= 2 /\
  files (enrich_all CHARACTER_DATABASE ["Spyro.json"; "gone.json"] false w).2
    !! "bare.json" = files w !! "bare.json".
Proof.
  intros w.
  assert (H : ~ In "bare.json" ["Spyro.json"; "gone.json"]).
  { intros [H|[H|[]]]; discriminate H. }
  split; [exact H|].
  exact (enrich_all_bounded CHARACTER_DATABASE ["Spyro.json"; "gone.json"] false w
           "bare.json" H).
Defined.

(** * A well-formed block line *)

Lemma first_break p u1 : forall u2 c1 t1 c2 t2,
  Str.all p u1 = true -> Str.all p u2 = true -> p c1 = false -> p c2 = false ->
  Str.cat u1 (String c1 t1) = Str.cat u2 (String c2 t2) ->
  u1 = u2 /\ c1 = c2 /\ t1 = t2.
Proof.
  induction u1 as [|a u1 IH]; intros [|b u2] c1 t1 c2 t2 H1 H2 Hc1 Hc2 E;
    cbn [Str.cat Str.all] in *.
  - injection E as -> ->. auto.
  - injection E as -> _. apply andb_prop in H2 as [Hb _]. congruence.
  - injection E as -> _. apply andb_prop in H1 as [Ha _]. congruence.
  - injection E as -> E. apply andb_prop in H1 as [_ H1].
    apply andb_prop in H2 as [_ H2].
    destruct (IH _ _ _ _ _ H1 H2 Hc1 Hc2 E) as (-> & -> & ->). auto.
Qed.

Lemma filter_pairs_text ps :
  forallb pair_ok ps = true ->
  Str.filter no_space (pairs_text ps) = pairs_hex ps /\
  String.length (pairs_hex ps) = 2 * length ps.
Proof.
  induction ps as [|[[h1 h2] ws] ps IH]; [now split|].
  cbn [forallb]. intros [Hp Hps]%andb_prop. unfold pair_ok in Hp. cbn [fst snd] in Hp.
  apply andb_prop in Hp as [[H1 H2]%andb_prop Hws].
  destruct (IH Hps) as [E L]. cbn [pairs_text pairs_hex Str.filter].
  unfold no_space at 1 2. rewrite (hex_not_space _ H1), (hex_not_space _ H2).
  cbn [negb]. rewrite str_filter_cat, E, str_filter_none.
  - split; [reflexivity|]. cbn [String.length length]. lia.
  - eapply str_all_weaken; [|exact Hws]. intros x Hx. unfold no_space. now rewrite Hx.
Qed.

Lemma sem_pairs_text tail c ps :
  forallb pair_ok ps = true ->
  sem icase_multiline (Times (length ps) (Seq (Times 2 (One hex)) (star space)))
    (pairs_text ps) tail c c.
Proof.
  induction ps as [|[[h1 h2] ws] ps IH]; [now split|].
  cbn [forallb]. intros [Hp Hps]%andb_prop. unfold pair_ok in Hp. cbn [fst snd] in Hp.
  apply andb_prop in Hp as [[H1 H2]%andb_prop Hws].
  specialize (IH Hps).
  exists (String h1 (String h2 ws)), (pairs_text ps), c.
  split; [reflexivity|]. split; [|exact IH].
  exists (String h1 (String h2 "")), ws, c.
  split; [reflexivity|]. split.
  - exists (String h1 ""), (String h2 ""), c. split; [reflexivity|]. split.
    + exists h1. now rewrite hex_atom_icase.
    + exists (String h2 ""), "", c. split; [reflexivity|]. split; [|now split].
      exists h2. now rewrite hex_atom_icase.
  - repeat split; [simpl; lia|].
    eapply str_all_weaken; [|exact Hws]. intros x Hx. now rewrite space_atom.
Qed.

Lemma lower_block_label lab :
  Str.lower lab = "block" -> lits_accept icase_multiline "Block" lab = true.
Proof.
  destruct lab as [|l1 [|l2 [|l3 [|l4 [|l5 [|l6 lab]]]]]]; try discriminate.
  cbn [Str.lower Str.map]. intros [= E1 E2 E3 E4 E5].
  cbn [lits_accept]. unfold icase_multiline. rewrite !lit_icase.
  now rewrite E1, E2, E3, E4, E5.
Qed.

Lemma colon_atom x :
  atom_matches icase_multiline (Atom false [Lit ":"%char]) x = true -> x = ":"%char.
Proof. by_cases_on_char x. Qed.

Lemma digit_not_space x : Chr.is_digit x = true -> Chr.is_space x = false.
Proof. by_cases_on_char x. Qed.

Lemma finditer_scan_skip fl r s : forall k,
  k <= String.length s ->
  finditer_scan fl r k s = finditer_scan fl r 0 (Str.drop k s).
Proof.
  induction s as [|a s IH]; intros [|k] Hk; try reflexivity.
  - simpl in Hk. lia.
  - cbn [finditer_scan Str.drop]. apply IH. simpl in Hk. lia.
Qed.

(** After a match that reads something, the search goes on behind it. *)
Lemma finditer_cons fl r w rest m :
  match_here fl r (Str.cat w rest) = Some m -> m_rest m = rest -> w <> "" ->
  finditer fl r (Str.cat w rest) = m :: finditer fl r rest.
Proof.
  intros H Hr Hw. destruct w as [|a w]; [easy|].
  unfold finditer. cbn [Str.cat finditer_scan]. cbn [Str.cat] in H. rewrite H, Hr.
  f_equal.
  change (String a (Str.cat w rest)) with (Str.cat (String a w) rest).
  rewrite consumed_cat. cbn [String.length Nat.sub].
  rewrite Nat.sub_0_r, finditer_scan_skip by (rewrite str_length_cat; lia).
  now rewrite drop_cat.
Qed.

Lemma space_not_b a : Chr.is_space a = true -> Ascii.eqb "b" (Chr.lower a) = false.
Proof. by_cases_on_char a. Qed.

(** No block match begins in white space. *)
Lemma block_matches_after_space ws s :
  Str.all Chr.is_space ws = true ->
  block_matches (Str.cat ws s) = block_matches s.
Proof.
  intros Hws. unfold block_matches, finditer.
  induction ws as [|a ws IH]; [reflexivity|].
  cbn [Str.all] in Hws. apply andb_prop in Hws as [Ha Hws].
  cbn [Str.cat finditer_scan].
  assert (E : match_here icase_multiline block_pattern (String a (Str.cat ws s)) = None).
  { unfold match_here, block_pattern. cbn [sequence lits]. unfold lit.
    cbn [rmatch]. unfold icase_multiline. rewrite lit_icase.
    change (Chr.lower "B") with "b"%char. now rewrite (space_not_b _ Ha). }
  rewrite E. now apply IH.
Qed.

Lemma filter_none_inv s :
  Str.filter no_space s = "" -> Str.all Chr.is_space s = true.
Proof.
  induction s as [|a s IH]; [reflexivity|]. cbn [Str.filter Str.all].
  unfold no_space at 1. destruct (Chr.is_space a); cbn [negb andb];
    [exact IH | discriminate].
Qed.

Lemma cat_empty_of_length s t n :
  String.length s = n -> String.length (Str.cat s t) = n -> t = "".
Proof.
  rewrite str_length_cat. intros -> H. destruct t; [reflexivity | simpl in H; lia].
Qed.

(** A line that begins with the label [Block], white space, a decimal
    index, a colon, optional white space and sixteen pairs of hex digits,
    each pair followed by optional white space, is the first block match
    of the text, and the matches of what follows the line come after it:
    its index is the number written, and its data are the 32 hex digits
    of the line, in order and in upper case. *)
Lemma block_line_matches
    (lab sp digits sp2 tail : string) (ps : list (ascii * ascii * string)) :
  Str.lower lab = "block" ->
  sp <> "" -> Str.all Chr.is_space sp = true ->
  digits <> "" -> Str.all Chr.is_digit digits = true ->
  Str.all Chr.is_space sp2 = true ->
  length ps = 16 -> forallb pair_ok ps = true ->
  exists m,
    block_matches
      (Str.cat lab (Str.cat sp (Str.cat digits
         (String ":" (Str.cat sp2 (Str.cat (pairs_text ps) tail))))))
      = m :: block_matches tail /\
    Str.int (group_text m 1) = Str.int digits /\
    clean_block (group_text m 2) = Str.upper (pairs_hex ps).
Proof.
  intros Hlab Hsp Hsps Hdig Hdigs Hsp2 Hlen Hps.
  set (content := Str.cat lab _).
  (* the pattern can read the line *)
  assert (Hsem : sem icase_multiline block_pattern
                   (Str.cat lab (Str.cat sp (Str.cat digits
                      (String ":" (Str.cat sp2 (pairs_text ps))))))
                   tail [] [(2, pairs_text ps); (1, digits)]).
  { unfold block_pattern, block_body. cbn [sequence].
    exists lab, (Str.cat sp (Str.cat digits (String ":" (Str.cat sp2 (pairs_text ps))))), [].
    split; [reflexivity|]. split; [apply sem_lits, lower_block_label, Hlab|].
    exists sp, (Str.cat digits (String ":" (Str.cat sp2 (pairs_text ps)))), [].
    split; [reflexivity|]. split.
    { repeat split.
      - destruct sp; [easy | simpl; lia].
      - eapply str_all_weaken; [|exact Hsps]. intros x Hx. now rewrite space_atom. }
    exists digits, (String ":" (Str.cat sp2 (pairs_text ps))), [(1, digits)].
    split; [reflexivity|]. split.
    { exists []. split; [|reflexivity]. repeat split.
      - destruct digits; [easy | simpl; lia].
      - eapply str_all_weaken; [|exact Hdigs]. intros x Hx.
        now rewrite digit_atom_icase. }
    exists (String ":" ""), (Str.cat sp2 (pairs_text ps)), [(1, digits)].
    split; [reflexivity|]. split; [exists ":"%char; repeat split|].
    exists sp2, (pairs_text ps), [(1, digits)].
    split; [reflexivity|]. split.
    { repeat split; [lia|].
      eapply str_all_weaken; [|exact Hsp2]. intros x Hx. now rewrite space_atom. }
    exists [(1, digits)]. split; [|reflexivity].
    rewrite <- Hlen. now apply sem_pairs_text. }
  assert (EC : content = Str.cat (Str.cat lab (Str.cat sp (Str.cat digits
                 (String ":" (Str.cat sp2 (pairs_text ps)))))) tail).
  { subst content. rewrite !str_cat_assoc. cbn [Str.cat]. now rewrite !str_cat_assoc. }
  pose proof (match_here_complete _ _ _ _ _ Hsem) as Hsome. rewrite <- EC in Hsome.
  destruct (match_here icase_multiline block_pattern content) as [m|] eqn:Em; [|easy].
  exists m.
  (* and whatever it reads there is the index and the data of the line *)
  pose proof (match_here_sound _ _ _ _ Em) as (w & Ew & _ & Hm).
  assert (Hfirst : block_matches content = m :: block_matches (m_rest m)).
  { unfold block_matches. rewrite Ew at 1. apply finditer_cons; [|reflexivity|].
    - now rewrite <- Ew.
    - intros ->. apply match_here_sound in Em as (w' & _ & _ & Hm').
      clear -Hm Hlab. unfold block_pattern in Hm. cbn [sequence] in Hm.
      destruct Hm as (wa & wb & c1 & E & Hl & _).
      destruct wa; [|discriminate E].
      apply sem_lits_length in Hl. discriminate Hl. }
  rewrite Hfirst. clear Hfirst Em.
  unfold block_pattern, block_body in Hm. cbn [sequence] in Hm.
  destruct Hm as (wa & wb & c1 & -> & Hl & Hm).
  pose proof (sem_lits_length _ _ _ _ _ _ Hl) as La.
  assert (c1 = []) as -> by (eapply sem_group_free; [|exact Hl]; reflexivity).
  destruct Hm as (a & wc & c2 & -> & (Ha1 & Ha & ->) & Hm).
  destruct Hm as (g1 & wd & c3 & -> & (c4 & (Hg1 & Hg & ->) & ->) & Hm).
  destruct Hm as (col & we & c5 & -> & (x & -> & Hx & ->) & Hm).
  destruct Hm as (a2 & g2 & c6 & -> & (_ & Ha2 & ->) & (c7 & H2 & Hc)).
  assert (c7 = [(1, g1)]) as ->
    by (eapply sem_group_free; [|exact H2]; reflexivity).
  apply colon_atom in Hx. subst x.
  unfold group_text, group. rewrite Hc.
  cbn [group_of Nat.eqb default from_option id].
  subst content. rewrite !str_cat_assoc in Ew. cbn [Str.cat] in Ew.
  assert (Ll : String.length lab = 5).
  { rewrite <- (str_length_map Chr.lower). unfold Str.lower in Hlab. now rewrite Hlab. }
  apply cat_same_length in Ew as [_ Ew]; [|simpl in La; lia].
  (* the white space, then the digits *)
  destruct digits as [|d ds]; [easy|]. destruct g1 as [|e es]; [simpl in Hg1; lia|].
  cbn [Str.all] in Hdigs, Hg. apply andb_prop in Hdigs as [Hd Hds].
  apply andb_prop in Hg as [He Hes]. rewrite digit_atom_icase in He.
  cbn [Str.cat] in Ew.
  apply first_break with (p := Chr.is_space) in Ew as (_ & <- & Ew);
    [|exact Hsps
     |eapply str_all_weaken; [|exact Ha]; intros z Hz; now rewrite space_atom in Hz
     |now apply digit_not_space|now apply digit_not_space].
  apply first_break with (p := Chr.is_digit) in Ew as (<- & _ & Ew);
    [|exact Hds
     |eapply str_all_weaken; [|exact Hes]; intros z Hz; now rewrite digit_atom_icase in Hz
     |reflexivity|reflexivity].
  (* the data: the first 32 characters that are no white space *)
  destruct (filter_pairs_text ps Hps) as [Ep Lp].
  destruct (block_body_read _ _ _ _ _ H2) as [L2 _].
  assert (Es : forall s, Str.all Chr.is_space s = true -> Str.filter no_space s = "").
  { intros s Hs. apply str_filter_none. eapply str_all_weaken; [|exact Hs].
    intros z Hz. unfold no_space. now rewrite Hz. }
  assert (Ha2' : Str.all Chr.is_space a2 = true).
  { eapply str_all_weaken; [|exact Ha2]. intros z Hz. now rewrite space_atom in Hz. }
  assert (Edata : Str.filter no_space g2 = pairs_hex ps).
  { apply (f_equal (Str.filter no_space)) in Ew.
    rewrite !str_filter_cat, Ep, (Es sp2 Hsp2), (Es a2 Ha2') in Ew.
    cbn [Str.cat] in Ew. symmetry in Ew.
    apply cat_same_length in Ew as [Ew _]; [exact Ew | lia]. }
  split; [|split; [reflexivity | rewrite clean_block_filter; now f_equal]].
  (* what is left after the match is white space and the rest of the text *)
  f_equal. rewrite <- !str_cat_assoc in Ew. symmetry in Ew.
  apply cat_eq_split in Ew as [(dd & Ed & ->)|(a0 & dd & Ed & ->)].
  - apply block_matches_after_space, filter_none_inv.
    apply (f_equal (Str.filter no_space)) in Ed.
    rewrite !str_filter_cat, Ep, Edata, (Es sp2 Hsp2), (Es a2 Ha2') in Ed.
    cbn [Str.cat] in Ed. symmetry in Ed.
    apply (cat_empty_of_length (pairs_hex ps) _ _ Lp). now rewrite Ed.
  - symmetry. apply block_matches_after_space, filter_none_inv.
    apply (f_equal (Str.filter no_space)) in Ed.
    rewrite !str_filter_cat, Ep, Edata, (Es sp2 Hsp2), (Es a2 Ha2') in Ed.
    cbn [Str.cat] in Ed.
    apply (cat_empty_of_length (pairs_hex ps) _ _ Lp). now rewrite <- Ed.
Qed.

Lemma last_with_index_none n ms :
  (forall m, In m ms -> Str.int (group_text m 1) <> n) ->
  last_with_index n ms = None.
Proof.
  induction ms as [|m ms IH]; intros H; [reflexivity|].
  cbn [last_with_index]. rewrite IH by (intros m' Hm'; apply H; now right).
  destruct (N.eqb_spec (Str.int (group_text m 1)) n) as [E|]; [|reflexivity].
  now destruct (H m (or_introl eq_refl)).
Qed.

Lemma scan_blocks_lookup_last content n :
  (scan_blocks content).1 !! n = last_with_index n (block_matches content).
Proof.
  unfold scan_blocks.
  rewrite (block_loop_lookup _ _ _ (block_matches_good content)). cbn [fst].
  rewrite lookup_empty. now destruct (last_with_index _ _).
Qed.

(** X21.  A well-formed block line in front of a text sets its slot and
    no other: the blocks are those of the rest of the text, but for the
    slot of the index written on the line, which holds the 32 hex digits of
    the line in upper case unless a later line carries the same index. *)
Theorem well_formed_block_line_is_stored
    (lab sp digits sp2 tail : string) (ps : list (ascii * ascii * string))
    (i : nat) :
  Str.lower lab = "block" ->
  sp <> "" -> Str.all Chr.is_space sp = true ->
  digits <> "" -> Str.all Chr.is_digit digits = true ->
  Str.all Chr.is_space sp2 = true ->
  length ps = 16 -> forallb pair_ok ps = true ->
  (forall m, In m (block_matches tail) ->
     Str.int (group_text m 1) <> Str.int digits) ->
  i < 64 ->
  nth_error
    (blocks (parse_flipper_nfc_file
               (Str.cat lab (Str.cat sp (Str.cat digits
                  (String ":" (Str.cat sp2 (Str.cat (pairs_text ps) tail))))))).1) i
  = if N.eqb (Str.int digits) (N.of_nat i)
    then Some (Str.upper (pairs_hex ps))
    else nth_error (blocks (parse_flipper_nfc_file tail).1) i.
Proof.
  intros Hlab Hsp Hsps Hdig Hdigs Hsp2 Hlen Hps Hlater Hi.
  destruct (block_line_matches lab sp digits sp2 tail ps
              Hlab Hsp Hsps Hdig Hdigs Hsp2 Hlen Hps) as (m & Hms & Hidx & Hdata).
  unfold parse_flipper_nfc_file. cbn [fst blocks].
  rewrite !assemble_blocks_nth by exact Hi.
  rewrite !scan_blocks_lookup_last, Hms. cbn [last_with_index].
  rewrite Hidx, Hdata.
  destruct (N.eqb_spec (Str.int digits) (N.of_nat i)) as [<-|Hne].
  - now rewrite (last_with_index_none _ _ Hlater).
  - now destruct (last_with_index (N.of_nat i) (block_matches tail)).
Qed.

Lemma well_formed_block_line_is_stored_witness :
  nth_error
    (blocks (parse_flipper_nfc_file
               (Str.cat "bLOCK" (Str.cat " " (Str.cat "07"
                  (String ":" (Str.cat "" (Str.cat (pairs_text sample_pairs)
                     (unlines [""; "Block 9: 00"])))))))).1) 7
  = Some "ABABABABABABABABABABABABABABABAB".
Proof.
  rewrite (well_formed_block_line_is_stored "bLOCK" " " "07" ""
             (unlines [""; "Block 9: 00"]) sample_pairs 7);
    try reflexivity; try discriminate; [|lia].
  intros m Hm. vm_compute in Hm. destruct Hm.
Defined.

(** * Labels in their exact spelling *)

Lemma lit_exact a x :
  atom_matches no_flags (Atom false [Lit a]) x = Ascii.eqb a x.
Proof. unfold atom_matches. simpl. now rewrite orb_false_r. Qed.

Lemma lits_need_prefix p r : forall k s c,
  Str.starts_with p s = false -> rmatch no_flags (Seq (lits p) r) k s c = None.
Proof.
  cbn [rmatch]. induction p as [|a p IH]; intros k s c H; [discriminate H|].
  cbn [lits rmatch]. unfold lit. cbn [rmatch].
  destruct s as [|x s]; [reflexivity|]. rewrite lit_exact.
  cbn [Str.starts_with] in H. destruct (Ascii.eqb a x); [|reflexivity].
  destruct p as [|b p]; [discriminate H|]. now apply IH.
Qed.

Lemma search_needs_label p r s :
  Str.contains p s = false -> search no_flags (Seq (lits p) r) s = None.
Proof.
  induction s as [|x s IH]; intros H.
  - cbn [Str.contains] in H. apply orb_false_iff in H as [H _].
    cbn [search]. unfold match_here. now rewrite lits_need_prefix.
  - cbn [Str.contains] in H. apply orb_false_iff in H as [H1 H2].
    cbn [search]. unfold match_here at 1. rewrite lits_need_prefix by exact H1.
    now apply IH.
Qed.

(** X22.  The ATQA, the SAK and the type are found under their labels in
    this exact spelling only: a text that does not hold [ATQA:] has no
    ATQA, one that does not hold [SAK:] has no SAK, and one that does not
    hold [Mifare Classic type:] has no type, whatever other letter case of
    the labels it holds. *)
Theorem exact_labels_needed (content : string) :
  let r := (parse_flipper_nfc_file content).1 in
  (Str.contains "ATQA:" content = false -> atqa r = None) /\
  (Str.contains "SAK:" content = false -> sak r = None) /\
  (Str.contains "Mifare Classic type:" content = false -> mifare_type r = None).
Proof.
  intros r. subst r. unfold parse_flipper_nfc_file. cbn [fst atqa sak mifare_type].
  unfold extract_atqa, extract_sak, extract_mifare_type,
    atqa_pattern, sak_pattern, mifare_pattern. cbn [sequence].
  repeat split; intros H; now rewrite search_needs_label.
Qed.

Lemma exact_labels_needed_witness :
  let content := unlines ["UID: 04"; "atqa: 00 04"; "Sak: 08";
                          "MIFARE Classic type: 1K"] in
  let r := (parse_flipper_nfc_file content).1 in
  atqa r = None /\ sak r = None /\ mifare_type r = None.
Proof.
  intros content.
  destruct (exact_labels_needed content) as (H1 & H2 & H3).
  split; [apply H1; reflexivity|]. split; [apply H2; reflexivity|].
  apply H3; reflexivity.
Defined.

(** * Answers of the operator *)

Lemma table_get_set_if key key' value v metadata :
  table_get key' (set_if key value v metadata) =
  if String.eqb key key' then answered value v (table_get key' metadata)
  else table_get key' metadata.
Proof.
  unfold set_if, answered. destruct (String.eqb_spec key key') as [<-|Hne].
  - destruct value; [reflexivity | apply table_get_dict_set_eq].
  - destruct value; [reflexivity | now apply table_get_dict_set_ne].
Qed.

(** What the call whose write is taken does with the four answers. *)
Lemma answers_written
    (database : list (string * CharacterProfile))
    (file_path : string) (w : world)
    (fields metadata : list (string * json)) (filename : string)
    (l1 l2 l3 l4 : string) (rest : list string) :
  files w !! file_path = Some (Document (JObj fields)) ->
  table_get "metadata" fields = Some (JObj metadata) ->
  default (JStr "") (table_get "original_filename" metadata) = JStr filename ->
  get_truthy "element" metadata && get_truthy "biography" metadata = false ->
  find_character_data database (Str.replace ".nfc" "" filename) = None ->
  stdin w = l1 :: l2 :: l3 :: l4 :: rest ->
  let r := enrich_json_file database file_path true w in
  r.1 = true /\ stdin r.2 = rest /\
  exists fields' metadata',
    files r.2 = <[file_path := Document (JObj fields')]> (files w) /\
    table_get "metadata" fields' = Some (JObj metadata') /\
    table_get "element" metadata'
      = answered (Str.strip l1) (JStr (Str.strip l1)) (table_get "element" metadata) /\
    table_get "biography" metadata'
      = answered (Str.strip l2) (JStr (Str.strip l2))
          (table_get "biography" metadata) /\
    table_get "abilities" metadata'
      = answered (Str.strip l3)
          (JArr (List.map (fun a => JStr (Str.strip a)) (split_comma (Str.strip l3))))
          (table_get "abilities" metadata) /\
    table_get "character_type" metadata'
      = answered (Str.strip l4) (JStr (Str.strip l4))
          (table_get "character_type" metadata).
Proof.
  intros Hf Hm Hn He Hp Hin r. subst r.
  unfold enrich_json_file, enrich_body, bind, load.
  rewrite Hf, Hm. cbn [from_option].
  change (id (JObj metadata)) with (JObj metadata). cbv iota.
  rewrite Hn, He, Hp.
  unfold say, input_strip, print, dump, ret. cbn [stdin stdout files].
  rewrite Hin. cbn [fst snd stdin stdout files].
  split; [reflexivity|]. split; [reflexivity|].
  eexists _, _. split; [reflexivity|].
  split; [apply table_get_dict_set_eq|].
  rewrite !table_get_set_if. cbn [String.eqb Ascii.eqb Bool.eqb].
  repeat split.
Qed.

(** X23.  In interactive mode, for a document the table does not match,
    the four answers are read in the order element, biography, abilities,
    type.  When the write is taken, each answer is kept without the white
    space around it, an empty answer leaves its key as it was, the
    abilities are the comma-separated pieces, each trimmed, and the call
    returns [True]; when the write raises, the call returns [False],
    prints the exception, and the file is untouched or cut short. *)
Theorem answers_are_stored
    (database : list (string * CharacterProfile))
    (file_path : string) (o : write_result) (w : world)
    (fields metadata : list (string * json)) (filename : string)
    (l1 l2 l3 l4 : string) (rest : list string) :
  files w !! file_path = Some (Document (JObj fields)) ->
  table_get "metadata" fields = Some (JObj metadata) ->
  default (JStr "") (table_get "original_filename" metadata) = JStr filename ->
  get_truthy "element" metadata && get_truthy "biography" metadata = false ->
  find_character_data database (Str.replace ".nfc" "" filename) = None ->
  stdin w = l1 :: l2 :: l3 :: l4 :: rest ->
  let r := enrich_json_file_io database file_path true o w in
  match o with
  | WriteOk =>
      r.1 = true /\ stdin r.2 = rest /\
      exists fields' metadata',
        files r.2 = <[file_path := Document (JObj fields')]> (files w) /\
        table_get "metadata" fields' = Some (JObj metadata') /\
        table_get "element" metadata'
          = answered (Str.strip l1) (JStr (Str.strip l1))
              (table_get "element" metadata) /\
        table_get "biography" metadata'
          = answered (Str.strip l2) (JStr (Str.strip l2))
              (table_get "biography" metadata) /\
        table_get "abilities" metadata'
          = answered (Str.strip l3)
              (JArr (List.map (fun a => JStr (Str.strip a))
                       (split_comma (Str.strip l3))))
              (table_get "abilities" metadata) /\
        table_get "character_type" metadata'
          = answered (Str.strip l4) (JStr (Str.strip l4))
              (table_get "character_type" metadata)
  | _ => failed_write file_path o w r
  end.
Proof.
  intros Hf Hm Hn He Hp Hin r. subst r.
  pose proof (answers_written database file_path w fields metadata filename l1 l2 l3 l4 rest
                Hf Hm Hn He Hp Hin) as H. cbv zeta in H.
  destruct o as [|msg|msg].
  - rewrite enrich_json_file_io_run. cbv zeta. rewrite (proj1 H). exact H.
  - apply enrich_write_fails; [exact (proj1 H) | discriminate].
  - apply enrich_write_fails; [exact (proj1 H) | discriminate].
Qed.

Lemma answers_are_stored_witness :
  let w := mkWorld {["q.json" := Document unknown_document]}
             [" Fire "; ""; "Bite, Roar "; "Core"] [] in
  let r := enrich_json_file_io CHARACTER_DATABASE "q.json" true WriteOk w in
  r.1 = true /\ stdin r.2 = [] /\
  exists fields' metadata',
    files r.2 = <["q.json" := Document (JObj fields')]> (files w) /\
    table_get "metadata" fields' = Some (JObj metadata') /\
    table_get "element" metadata' = Some (JStr "Fire") /\
    table_get "biography" metadata' = None /\
    table_get "abilities" metadata' = Some (JArr [JStr "Bite"; JStr "Roar"]) /\
    table_get "character_type" metadata' = Some (JStr "Core").
Proof.
  intros w.
  apply (answers_are_stored CHARACTER_DATABASE "q.json" WriteOk w
           [("uid", JStr "04A2B3");
            ("metadata", JObj [("original_filename", JStr "Qwxz.nfc")])]
           [("original_filename", JStr "Qwxz.nfc")] "Qwxz.nfc"
           " Fire " "" "Bite, Roar " "Core" []); reflexivity.
Defined.

(** * Block lines with more or fewer than sixteen pairs *)






(** The white space between two pairs may hold line ends: fifteen pairs
    on the line of block 1 and a pair on the next line make a block. *)
Example block_pairs_run_over_lines :
  nth_error
    (blocks (parse_flipper_nfc_file
               (unlines ["Block 1: 00 01 02 03 04 05 06 07 08 09 0A 0B 0C 0D 0E";
                         "AB CD"])).1) 1
  = Some "000102030405060708090A0B0C0D0EAB".
Proof. vm_compute. reflexivity. Qed.

(** * Texts that have a UID without a UID line of their own *)

(** The search for the label is not tied to the start of a line: a text
    without any UID line, in which another word ends in [uid:], has a UID
    and is converted. *)
Lemma label_inside_a_line_is_read :
  has_uid_line fluid_dump = false /\
  uid (parse_flipper_nfc_file fluid_dump).1 = Some "04A2" /\
  let st' := convert_file ["dumps"] ["out"] 1 start_state
               (["Spyro.nfc"], Text fluid_dump) in
  errors st' = [] /\ converted_count st' = 1 /\
  exists doc, written st' !! ["out"; "Spyro.json"] = Some doc.
Proof.
  split; [reflexivity|]. split; [reflexivity|]. cbv zeta.
  split; [reflexivity|]. split; [reflexivity|].
  pose proof (convert_file_written ["dumps"] ["out"] 1 start_state ["Spyro.nfc"]
                fluid_dump ["Spyro.json"] eq_refl eq_refl) as W.
  change (["out"] ++ ["Spyro.json"]) with ["out"; "Spyro.json"] in W.
  eexists. rewrite W. apply lookup_insert_eq.
Qed.


(** * A write of the enricher that raises *)

(** The document is matched, [json.dump] raises: the call returns
    [False], the file is left cut short and the exception is printed; the
    next call finds a file that is no JSON. *)
Example cut_write_is_reported :
  let w := mkWorld {["Spyro.json" := Document plain_spyro]} [] [] in
  let r := enrich_json_file_io CHARACTER_DATABASE "Spyro.json" false
             (WriteCut "'utf-8' codec can't encode character '\ud800'") w in
  r.1 = false /\
  files r.2 !! "Spyro.json" = Some Malformed /\
  last (stdout r.2)
    = Some (ErrorProcessing "Spyro.json"
              (WriteException "'utf-8' codec can't encode character '\ud800'")) /\
  let r' := enrich_json_file_io CHARACTER_DATABASE "Spyro.json" false WriteOk r.2 in
  r'.1 = false /\
  last (stdout r'.2) = Some (ErrorProcessing "Spyro.json" JSONDecodeError).
Proof. vm_compute. repeat split. Qed.
